(** * Gas-safety video generator: timeline renderer and capture pipeline

    A shallow embedding of [src/components/VideoGenerator.tsx].

    - JavaScript numbers are modelled by exact rationals ([Q]); rounding of
      IEEE doubles is not modelled.  Tests on numbers are boolean
      ([Qltb], [Qleb]) so that every definition evaluates.
    - The 2D context is modelled by the sequence of calls the program issues
      on it.  In [frame] the drawing helpers ([drawHeader], [drawSub],
      [roundedTag], [ctaButton] and the icon closures) appear as single
      calls carrying their arguments; [ops_of] gives the operations each of
      them performs on the context.
    - What the browser decides ([Math.sin], [MediaRecorder.isTypeSupported],
      whether the [MediaRecorder] constructor or [start()] throws) is a
      [Platform] value; what happens while a run is in flight (animation
      frames with their [performance.now()] reading, [dataavailable] and
      [stop] events) is a list of [EnvEvent]s consumed by [step] (a recorder
      that keeps to its contract) or by [deliver] (any sequence of events,
      the handlers unguarded); the two agree on [orderly] lists. *)

From Stdlib Require Import QArith Qminmax Qround Lqa Lia ZArith.
From Stdlib Require Import List String Bool.
From Stdlib Require Strings.Byte.
Import ListNotations.

Open Scope Q_scope.

(** ** Numbers *)

Definition Qltb (x y : Q) : bool := negb (Qle_bool y x).
Definition Qleb (x y : Q) : bool := Qle_bool x y.

Infix "<?" := Qltb (at level 70, no associativity) : Q_scope.
Infix "<=?" := Qleb (at level 70, no associativity) : Q_scope.

(** [Math.floor] *)
Definition Math_floor (x : Q) : Q := inject_Z (Qfloor x).

(** [Math.min] *)
Definition Math_min (x y : Q) : Q := Qmin x y.

(** [Math.pow] with a literal integer exponent *)
Definition Math_pow (b : Q) (e : Z) : Q := b ^ e.

(** The loop counter [i] converted to a number. *)
Definition num (i : nat) : Q := inject_Z (Z.of_nat i).

Definition WIDTH : Q := 1080.
Definition HEIGHT : Q := 1920.
Definition DURATION_MS : Q := 15000.

(** ** The browser *)

(** A thrown value as the [catch] block of [start] reads it:
    [e?.message]. *)
Record Thrown : Type := { message : option string }.

Record Platform : Type := {
  Math_sin : Q -> Q;
  isTypeSupported : string -> bool;
  (** [new MediaRecorder(stream, {mimeType, ...})]: [Some e] when the
      constructor throws [e]. *)
  MediaRecorder_new : string -> option Thrown;
  (** [rec.start()]: [Some e] when it throws [e]. *)
  MediaRecorder_start : option Thrown
}.

(** ** The canvas *)

Record Canvas : Type := { width : Q; height : Q }.

Record Palette : Type := {
  bg : string; primary : string; secondary : string;
  text : string; muted : string; ok : string
}.

Inductive Icon : Type := house | stove | device | shield | whatsapp.

Inductive Style : Type :=
| Css (color : string)
| Hsl (hue : Q)  (* the template string hsl(<hue> 90% 60%) *)
| LinearGradient (x0 y0 x1 y1 : Q) (stops : list (Q * string)).

Inductive Call : Type :=
| ctx_clearRect (x y w h : Q)
| ctx_fillRect (x y w h : Q)
| ctx_fillStyle (s : Style)
| ctx_strokeStyle (s : Style)
| ctx_lineWidth (w : Q)
| ctx_lineCap (cap : string)
| ctx_globalAlpha (a : Q)
| ctx_save
| ctx_restore
| ctx_translate (x y : Q)
| ctx_scale (sx sy : Q)
| ctx_beginPath
| ctx_moveTo (x y : Q)
| ctx_lineTo (x y : Q)
| ctx_roundRect (x y w h r : Q)
| ctx_fill
| ctx_stroke
| call_drawHeader (txt color : string) (size yRel : Q)
| call_drawSub (txt color : string) (size yRel : Q)
| call_roundedTag (txt : string) (x y : Q) (color : string) (pal : Palette)
| call_ctaButton (icon : Icon) (x y : Q) (label : string) (pal : Palette)
| call_icon (icon : Icon) (x y w h : Q) (pal : Palette).

Definition palette : Palette := {|
  bg := "#fff7ed"; primary := "#f97316"; secondary := "#fde68a";
  text := "#1f2937"; muted := "#6b7280"; ok := "#16a34a"
|}.

Definition drawBackground (canvas : Canvas) : list Call :=
  [ ctx_fillStyle (LinearGradient 0 0 0 (height canvas)
                     [(0, "#fff1e6"%string); (1, "#ffe4d0"%string)]);
    ctx_fillRect 0 0 (width canvas) (height canvas);
    ctx_fillStyle (Css "rgba(0,0,0,0.05)");
    ctx_beginPath;
    ctx_roundRect 40 40 (width canvas - 80) (height canvas - 80) 40;
    ctx_fill ].

Definition lerp (a b t : Q) : Q := a + (b - a) * t.
Definition ease (t : Q) : Q := 1 - Math_pow (1 - t) 3.

(** ** Confetti *)

Definition rng (P : Platform) (seed : Q) : Q :=
  let s := Math_sin P seed * 10000 in
  s - Math_floor s.

Record Particle : Type := { p_x : Q; p_y : Q; p_size : Q; p_hue : Q }.

(** The four locals of one iteration of the loop of [drawConfetti]. *)
Definition particle (P : Platform) (now : Q) (canvas : Canvas) (i : nat)
  : Particle :=
  let seed := num i * 123.456 + now * 0.002 in
  {| p_x := rng P seed * width canvas;
     p_y := (rng P (seed + 1.23) * height canvas * 0.6) + height canvas * 0.2;
     p_size := 6 + rng P (seed + 2.34) * 14;
     p_hue := 20 + rng P (seed + 3.45) * 40 |}.

Definition drawParticle (p : Particle) : list Call :=
  [ ctx_fillStyle (Hsl (p_hue p));
    ctx_beginPath;
    ctx_roundRect (p_x p) (p_y p) (p_size p) (p_size p * 0.5) 3;
    ctx_fill ].

Definition drawConfetti (P : Platform) (now : Q) (canvas : Canvas)
  : list Call :=
  flat_map (fun i => drawParticle (particle P now canvas i)) (seq 0 80).

(** ** One animation frame *)

Inductive Phase : Type := Intro | Install | Prevent | CTA.

(** The chain of tests of [frame], in source order; [None] when every test
    fails. *)
Definition phaseOf (ms : Q) : option Phase :=
  if ms <? 3000 then Some Intro
  else if ms <? 8000 then Some Install
  else if ms <? 12000 then Some Prevent
  else if ms <=? 15000 then Some CTA
  else None.

(** The local [t] of [frame]:
    [Math.min(1, (now - start) / (end - start))]. *)
Definition progress (start now : Q) : Q :=
  let end_ := start + DURATION_MS in
  Math_min 1 ((now - start) / (end_ - start)).

(** The local [x] of the Install branch. *)
Definition deviceX (canvas : Canvas) (ms : Q) : Q :=
  let local := (ms - 3000) / 5000 in
  lerp (width canvas * 0.2) (width canvas * 0.5) (ease (Math_min 1 local)).

Definition drawPhase (P : Platform) (canvas : Canvas) (now ms : Q)
  (ph : Phase) : list Call :=
  match ph with
  | Intro =>
      let scale := 1 + Math_sin P (now / 400) * 0.03 in
      [ call_drawHeader "Gas Safety Device" (text palette) 84 0.06;
        call_drawSub "Safe, Reliable, Easy Installation" (primary palette)
          44 0.12;
        ctx_save;
        ctx_translate (width canvas / 2) (height canvas * 0.42);
        ctx_scale scale scale;
        call_icon house (-200) (-200) 400 400 palette;
        ctx_restore ]
  | Install =>
      let local := (ms - 3000) / 5000 in
      let x := deviceX canvas ms in
      let y := height canvas * 0.55 + Math_sin P (now / 250) * 6 in
      let s := 1 + (1 - local) * 0.15 in
      [ call_drawHeader "Easy Installation" (text palette) 74 0.06;
        call_drawSub "Fits seamlessly in your kitchen" (muted palette)
          38 0.115;
        ctx_save;
        ctx_translate (width canvas * 0.65) (height canvas * 0.5);
        call_icon stove (-220) (-220) 440 440 palette;
        ctx_restore;
        ctx_save;
        ctx_translate x y;
        ctx_scale s s;
        call_icon device (-130) (-130) 260 260 palette;
        ctx_strokeStyle (Css (primary palette));
        ctx_lineWidth 10;
        ctx_beginPath;
        ctx_moveTo 0 0;
        ctx_lineTo (width canvas * 0.15) 0;
        ctx_stroke;
        ctx_restore ]
  | Prevent =>
      let pulse := 1 + Math_sin P (now / 300) * 0.06 in
      [ call_drawHeader "Prevents Gas Leaks" (text palette) 78 0.06;
        call_drawSub "Protects your family from accidents" (muted palette)
          40 0.115;
        ctx_save;
        ctx_globalAlpha 0.25;
        call_icon stove (width canvas * 0.1) (height canvas * 0.3) 420 420
          palette;
        ctx_restore;
        ctx_save;
        ctx_translate (width canvas / 2) (height canvas * 0.55);
        ctx_scale pulse pulse;
        call_icon shield (-220) (-220) 440 440 palette;
        ctx_strokeStyle (Css (ok palette));
        ctx_lineWidth 26;
        ctx_lineCap "round";
        ctx_beginPath;
        ctx_moveTo (-60) 20;
        ctx_lineTo (-10) 70;
        ctx_lineTo 90 (-40);
        ctx_stroke;
        ctx_restore;
        call_roundedTag "Safe ? Reliable" (width canvas / 2)
          (height canvas * 0.82) (ok palette) palette ]
  | CTA =>
      let bx := width canvas / 2 in
      let by_ := height canvas * 0.6 in
      [ call_drawHeader "Order Now" (text palette) 86 0.06;
        call_drawSub "Cash on Delivery Available" (primary palette) 46 0.115;
        call_ctaButton whatsapp bx by_ "Order via WhatsApp" palette;
        call_icon device (width canvas * 0.6) (height canvas * 0.28) 280 280
          palette ]
      ++ drawConfetti P now canvas
  end.

(** What [frame] does last: ask for another frame, or resolve the promise
    of [playAnimation]. *)
Inductive Next : Type := Reschedule | Resolve.

(** [frame], given the reading [now] of [performance.now()]: the calls it
    issues on the context and how it ends.  [start] is the reading taken by
    [playAnimation] before the first frame. *)
Definition frame (P : Platform) (canvas : Canvas) (start now : Q)
  : list Call * Next :=
  let end_ := start + DURATION_MS in
  let t := progress start now in   (* computed, never used *)
  let ms := now - start in
  ( ctx_clearRect 0 0 (width canvas) (height canvas)
      :: drawBackground canvas
      ++ match phaseOf ms with
         | Some ph => drawPhase P canvas now ms ph
         | None => []
         end,
    if now <? end_ then Reschedule else Resolve ).

(** ** Format selection *)

Definition candidates : list string :=
  [ "video/webm;codecs=vp9"; "video/webm;codecs=vp8"; "video/webm";
    "video/mp4;codecs=h264"; "video/mp4" ]%string.

(** The [for ... of] loop of [getSupportedMimeType] with its early
    [return]. *)
Fixpoint firstSupported (P : Platform) (types : list string)
  : option string :=
  match types with
  | [] => None
  | type :: rest =>
      if isTypeSupported P type then Some type else firstSupported P rest
  end.

Definition getSupportedMimeType (P : Platform) : string :=
  match firstSupported P candidates with
  | Some type => type
  | None => "video/webm"%string
  end.

(** ** The component and one run of [start] *)

Inductive GenerationState : Type := Idle | Recording | Done | Error.

Record Blob : Type := { bytes : list Byte.byte; type : string }.

Definition size (b : Blob) : nat := List.length (bytes b).

(** [new Blob(parts, { type })] *)
Definition new_Blob (parts : list Blob) (ty : string) : Blob :=
  {| bytes := List.concat (map bytes parts); type := ty |}.

Record MediaRecorder : Type := {
  mimeType : string;
  videoBitsPerSecond : Z
}.

(** The hooks of [VideoGenerator].  An object URL is identified with the
    blob it was created for. *)
Record Component : Type := {
  recState : GenerationState;
  blobUrl : option Blob;
  error : option string;
  mediaRecorderRef : option MediaRecorder;
  chunksRef : list Blob
}.

Definition setRecState (v : GenerationState) (c : Component) : Component :=
  {| recState := v; blobUrl := blobUrl c; error := error c;
     mediaRecorderRef := mediaRecorderRef c; chunksRef := chunksRef c |}.

Definition setBlobUrl (v : option Blob) (c : Component) : Component :=
  {| recState := recState c; blobUrl := v; error := error c;
     mediaRecorderRef := mediaRecorderRef c; chunksRef := chunksRef c |}.

Definition setError (v : option string) (c : Component) : Component :=
  {| recState := recState c; blobUrl := blobUrl c; error := v;
     mediaRecorderRef := mediaRecorderRef c; chunksRef := chunksRef c |}.

Definition set_mediaRecorderRef (v : option MediaRecorder) (c : Component)
  : Component :=
  {| recState := recState c; blobUrl := blobUrl c; error := error c;
     mediaRecorderRef := v; chunksRef := chunksRef c |}.

Definition set_chunksRef (v : list Blob) (c : Component) : Component :=
  {| recState := recState c; blobUrl := blobUrl c; error := error c;
     mediaRecorderRef := mediaRecorderRef c; chunksRef := v |}.

(** What a run does to the outside, in program order. *)
Inductive Action : Type :=
| act_captureStream (fps : Z)
| act_newMediaRecorder (mime : string) (bps : Z)  (* the constructor call *)
| act_resetChunks                                 (* chunksRef.current = [] *)
| act_start                                       (* the call rec.start() *)
| act_frame (now : Q) (calls : list Call)         (* a frame callback ran *)
| act_frameThrew (now : Q) (e : Thrown)           (* a frame callback threw *)
| act_stop                                        (* the call rec.stop() *)
| act_createObjectURL (b : Blob).

(** What the browser does while a run is in flight. *)
Inductive EnvEvent : Type :=
(** the callback passed to [requestAnimationFrame] is invoked and reads
    [now] from [performance.now()]; with [Some e], a call on the context
    throws [e] inside the callback *)
| AnimationFrame (now : Q) (throws : option Thrown)
(** the recorder fires [dataavailable] *)
| DataAvailable (data : Blob)
(** the recorder fires [stop] *)
| StopEvent.

(** Where the body of [start] stands. *)
Inductive Stage : Type :=
| Animating  (* suspended at the [await]; a frame is requested *)
| Hung       (* suspended at the [await]; a frame threw, none is requested *)
| Stopping   (* [rec.stop()] was called; [onstop] has not run yet *)
| Finished   (* [onstop] ran *)
| Failed.    (* the [catch] block ran *)

Record RunState : Type := {
  comp : Component;
  stage : Stage;
  trace : list Action;
  rec : option MediaRecorder;   (* the local [rec] the handlers close over *)
  clock : Q                     (* the local [start] of [playAnimation] *)
}.

Definition canvas : Canvas := {| width := WIDTH; height := HEIGHT |}.

(** [e?.message ?? "Failed to generate video"] *)
Definition shown (e : Thrown) : string :=
  match message e with
  | Some m => m
  | None => "Failed to generate video"%string
  end.

(** The [catch] block of [start]. *)
Definition catch (e : Thrown) (c : Component) : Component :=
  setRecState Error (setError (Some (shown e)) c).

(** [rec.ondataavailable] *)
Definition ondataavailable (data : Blob) (c : Component) : Component :=
  if Nat.eqb (size data) 0 then c
  else set_chunksRef (chunksRef c ++ [data]) c.

(** [rec.onstop]: the blob, and the component after the two setters. *)
Definition onstop (r : MediaRecorder) (c : Component) : Blob * Component :=
  let blob := new_Blob (chunksRef c) (mimeType r) in
  (blob, setRecState Done (setBlobUrl (Some blob) c)).

(** [start], from the click up to the point where it is suspended at
    [await playAnimation(canvas)] (or has run its [catch] block).  [t0] is
    the reading of [performance.now()] taken by [playAnimation].  The canvas
    is mounted and [canvas.captureStream(30)] returns a stream: of the calls
    in the [try] block, the constructor and [rec.start()] are the ones that
    can throw here. *)
Definition start (P : Platform) (t0 : Q) (c : Component) : RunState :=
  let c := setError None c in
  let c := setBlobUrl None c in
  let mime := getSupportedMimeType P in
  let tr := [act_captureStream 30; act_newMediaRecorder mime 6000000] in
  match MediaRecorder_new P mime with
  | Some e =>
      {| comp := catch e c; stage := Failed; trace := tr;
         rec := None; clock := t0 |}
  | None =>
      let r := {| mimeType := mime; videoBitsPerSecond := 6000000 |} in
      let c := set_chunksRef [] c in
      let c := set_mediaRecorderRef (Some r) c in
      let c := setRecState Recording c in
      let tr := tr ++ [act_resetChunks; act_start] in
      match MediaRecorder_start P with
      | Some e =>
          {| comp := catch e c; stage := Failed; trace := tr;
             rec := Some r; clock := t0 |}
      | None =>
          {| comp := c; stage := Animating; trace := tr;
             rec := Some r; clock := t0 |}
      end
  end.

Definition with_comp (c : Component) (s : RunState) : RunState :=
  {| comp := c; stage := stage s; trace := trace s; rec := rec s;
     clock := clock s |}.

Definition advance (st : Stage) (acts : list Action) (s : RunState)
  : RunState :=
  {| comp := comp s; stage := st; trace := trace s ++ acts; rec := rec s;
     clock := clock s |}.

(** One browser event of a recorder that keeps to its contract.  A frame
    callback only runs while one is requested; when the last frame resolves
    the promise, [start] resumes and calls [rec.stop()] before any other
    event is handled.  The recorder fires [dataavailable] until it has fired
    [stop], and fires [stop] only once [rec.stop()] was called: an event
    outside that contract is left out here, and handled in [deliver]
    below, which runs the handlers unguarded as the source registers
    them. *)
Definition step (P : Platform) (s : RunState) (ev : EnvEvent) : RunState :=
  match ev, stage s with
  | AnimationFrame now (Some e), Animating =>
      advance Hung [act_frameThrew now e] s
  | AnimationFrame now None, Animating =>
      match frame P canvas (clock s) now with
      | (calls, Reschedule) => advance Animating [act_frame now calls] s
      | (calls, Resolve) => advance Stopping [act_frame now calls; act_stop] s
      end
  | DataAvailable data, (Animating | Hung | Stopping) =>
      with_comp (ondataavailable data (comp s)) s
  | StopEvent, Stopping =>
      match rec s with
      | Some r =>
          let (blob, c) := onstop r (comp s) in
          advance Finished [act_createObjectURL blob] (with_comp c s)
      | None => s
      end
  | _, _ => s
  end.

(** A run: the click, then the browser's events in order. *)
Definition run (P : Platform) (t0 : Q) (c : Component)
  (evs : list EnvEvent) : RunState :=
  fold_left (step P) evs (start P t0 c).

(** The artifact a run has produced so far. *)
Definition artifact (s : RunState) : option Blob := blobUrl (comp s).

(** One browser event with the two handlers exactly as [start] registers
    them: [rec.ondataavailable] and [rec.onstop] have no test of their own
    and run whenever the recorder fires their event, whatever the run is
    doing.  (When the constructor threw there is no recorder and no
    handler.)  A frame callback is handled as in [step].  When [onstop] runs
    after [rec.stop()] was called the run is finished; when it runs at any
    other time the body of [start] stays where it stands. *)
Definition deliver (P : Platform) (s : RunState) (ev : EnvEvent)
  : RunState :=
  match ev with
  | AnimationFrame _ _ => step P s ev
  | DataAvailable data =>
      match rec s with
      | Some _ => with_comp (ondataavailable data (comp s)) s
      | None => s
      end
  | StopEvent =>
      match rec s with
      | Some r =>
          let (blob, c) := onstop r (comp s) in
          advance (match stage s with Stopping => Finished | st => st end)
            [act_createObjectURL blob] (with_comp c s)
      | None => s
      end
  end.

(** A run with the handlers unguarded. *)
Definition drive (P : Platform) (t0 : Q) (c : Component)
  (evs : list EnvEvent) : RunState :=
  fold_left (deliver P) evs (start P t0 c).

(** Does the recorder fire [ev] at a time its contract allows?
    [dataavailable] from [start()] until the [stop] event; [stop] only after
    [rec.stop()] was called, and once. *)
Definition expected (st : Stage) (ev : EnvEvent) : bool :=
  match ev with
  | AnimationFrame _ _ => true
  | DataAvailable _ =>
      match st with
      | Animating | Hung | Stopping => true
      | Finished | Failed => false
      end
  | StopEvent =>
      match st with
      | Stopping => true
      | _ => false
      end
  end.

Fixpoint orderlyFrom (P : Platform) (s : RunState) (evs : list EnvEvent)
  : bool :=
  match evs with
  | [] => true
  | ev :: rest => expected (stage s) ev && orderlyFrom P (deliver P s ev) rest
  end.

(** The events of a run in which the recorder keeps to its contract. *)
Definition orderly (P : Platform) (t0 : Q) (c : Component)
  (evs : list EnvEvent) : Prop :=
  orderlyFrom P (start P t0 c) evs = true.

(** The contract of the [MediaRecorder] constructor: it throws for a type
    that [isTypeSupported] reports as unsupported. *)
Definition conforming (P : Platform) : Prop :=
  forall t, isTypeSupported P t = false -> MediaRecorder_new P t <> None.

(** ** Observations on a frame *)

Definition Icon_eqb (i j : Icon) : bool :=
  match i, j with
  | house, house | stove, stove | device, device
  | shield, shield | whatsapp, whatsapp => true
  | _, _ => false
  end.

(** Is icon [i] drawn by one of [calls]?  [ctaButton] draws the icon it is
    given. *)
Definition drawsIcon (i : Icon) (calls : list Call) : bool :=
  existsb (fun c => match c with
                    | call_icon j _ _ _ _ _ => Icon_eqb i j
                    | call_ctaButton j _ _ _ _ => Icon_eqb i j
                    | _ => false
                    end) calls.

(** The horizontal offset of the moving device: the [x] of the
    [translate(x, y)] that is followed by [scale] and the device icon. *)
Fixpoint devicePosition (calls : list Call) : option Q :=
  match calls with
  | [] => None
  | c :: rest =>
      match c, rest with
      | ctx_translate x _, ctx_scale _ _ :: call_icon device _ _ _ _ _ :: _ =>
          Some x
      | _, _ => devicePosition rest
      end
  end.

(** The confetti a sequence of calls paints: one particle for every
    [fillStyle = hsl(..)], [beginPath], [roundRect], [fill] in a row. *)
Fixpoint layoutOf (calls : list Call) : list Particle :=
  match calls with
  | [] => []
  | c :: rest =>
      match c, rest with
      | ctx_fillStyle (Hsl h),
        ctx_beginPath :: ctx_roundRect x y s _ _ :: ctx_fill :: rest' =>
          {| p_x := x; p_y := y; p_size := s; p_hue := h |} :: layoutOf rest'
      | _, _ => layoutOf rest
      end
  end.

Definition setsHue (c : Call) : bool :=
  match c with
  | ctx_fillStyle (Hsl _) => true
  | _ => false
  end.

(** The spec's [clamp(x, lo, hi)]. *)
Definition clamp (x lo hi : Q) : Q := Qmax lo (Qmin hi x).

(** The time window the spec gives each phase. *)
Definition window (ph : Phase) (ms : Q) : Prop :=
  match ph with
  | Intro => 0 <= ms /\ ms < 3000
  | Install => 3000 <= ms /\ ms < 8000
  | Prevent => 8000 <= ms /\ ms < 12000
  | CTA => 12000 <= ms /\ ms <= 15000
  end.

(** A browser on which nothing is supported and nothing throws; its
    [Math.sin] is the zero function. *)
Definition bare : Platform := {|
  Math_sin := fun _ => 0;
  isTypeSupported := fun _ => false;
  MediaRecorder_new := fun _ => None;
  MediaRecorder_start := None
|}.

(** The component as first rendered: the initial values of its hooks. *)
Definition initial : Component := {|
  recState := Idle; blobUrl := None; error := None;
  mediaRecorderRef := None; chunksRef := []
|}.

(** The fragments the recorder delivered during [evs], in order. *)
Definition data_of (evs : list EnvEvent) : list Blob :=
  flat_map (fun ev => match ev with
                      | DataAvailable data => [data]
                      | _ => []
                      end) evs.

Definition nonEmpty (b : Blob) : bool := negb (Nat.eqb (size b) 0).

(** The timestamps of the frames a trace rendered, in order. *)
Definition frame_times (tr : list Action) : list Q :=
  flat_map (fun a => match a with
                     | act_frame now _ => [now]
                     | _ => []
                     end) tr.

Definition is_frame (a : Action) : bool :=
  match a with
  | act_frame _ _ => true
  | _ => false
  end.

Definition is_stop (a : Action) : bool :=
  match a with
  | act_stop => true
  | _ => false
  end.

Definition is_start (a : Action) : bool :=
  match a with
  | act_start => true
  | _ => false
  end.

(** Is the recorder still able to deliver data in this stage? *)
Definition live (st : Stage) : bool :=
  match st with
  | Animating | Hung | Stopping => true
  | Finished | Failed => false
  end.

(** ** The shape of a run *)

(** What [start] does before the first frame. *)
Definition opening (P : Platform) : list Action :=
  [ act_captureStream 30; act_newMediaRecorder (getSupportedMimeType P) 6000000;
    act_resetChunks; act_start ].

(** The action of a frame callback that ran at [now] in a run whose
    animation started at [t0]. *)
Definition frameAct (P : Platform) (t0 now : Q) : Action :=
  act_frame now (fst (frame P canvas t0 now)).

(** The recorder [start] creates. *)
Definition recorder (P : Platform) : MediaRecorder :=
  {| mimeType := getSupportedMimeType P; videoBitsPerSecond := 6000000 |}.

(** Timestamps that lie before the end of the timeline. *)
Definition early (t0 : Q) (nows : list Q) : Prop :=
  Forall (fun now => now < t0 + DURATION_MS) nows.

Definition running (c : Component) : Prop :=
  recState c = Recording /\ error c = None /\ blobUrl c = None.

(** What the trace and the component look like in each stage. *)
Definition Shape (P : Platform) (t0 : Q) (s : RunState) : Prop :=
  clock s = t0 /\
  match stage s with
  | Animating =>
      rec s = Some (recorder P) /\ running (comp s) /\
      exists nows,
        trace s = opening P ++ map (frameAct P t0) nows /\ early t0 nows
  | Hung =>
      rec s = Some (recorder P) /\ running (comp s) /\
      exists nows now e,
        trace s = opening P ++ map (frameAct P t0) nows
                    ++ [act_frameThrew now e] /\
        early t0 nows
  | Stopping =>
      rec s = Some (recorder P) /\ running (comp s) /\
      exists nows last,
        trace s = opening P ++ map (frameAct P t0) (nows ++ [last])
                    ++ [act_stop] /\
        early t0 nows /\ t0 + DURATION_MS <= last
  | Finished =>
      exists nows last b,
        trace s = opening P ++ map (frameAct P t0) (nows ++ [last])
                    ++ [act_stop; act_createObjectURL b] /\
        early t0 nows /\ t0 + DURATION_MS <= last /\
        recState (comp s) = Done /\ error (comp s) = None /\
        blobUrl (comp s) = Some b
  | Failed =>
      (exists e, error (comp s) = Some (shown e)) /\
      recState (comp s) = Error /\ blobUrl (comp s) = None /\
      (trace s = firstn 2 (opening P) \/ trace s = opening P)
  end.

(** ** Sample browsers and runs *)

(** A browser that supports only H.264 in MP4. *)
Definition mp4_only : Platform := {|
  Math_sin := fun _ => 0;
  isTypeSupported := fun t => String.eqb t "video/mp4;codecs=h264";
  MediaRecorder_new := fun t =>
    if String.eqb t "video/mp4;codecs=h264" then None
    else Some {| message := Some "NotSupportedError"%string |};
  MediaRecorder_start := None
|}.

(** A fragment of [n] bytes. *)
Definition sample_blob (n : nat) : Blob :=
  {| bytes := repeat Byte.x2a n; type := "video/webm" |}.

(** Two frames, one fragment on stop, then the stop event. *)
Definition short_run : list EnvEvent :=
  [ AnimationFrame 16 None; AnimationFrame 15016 None;
    DataAvailable (sample_blob 3); StopEvent ].

(** What a browser without [roundRect] throws. *)
Definition type_error : Thrown :=
  {| message := Some "ctx.roundRect is not a function"%string |}.

(** The first frame throws; the recorder, never stopped, goes on recording
    and the browser goes on announcing frames. *)
Definition thrown_run : list EnvEvent :=
  [ AnimationFrame 16 (Some type_error); DataAvailable (sample_blob 3);
    AnimationFrame 15016 None ].

(** A run in which an empty fragment arrives between three others. *)
Definition chunked_run : list EnvEvent :=
  [ DataAvailable (sample_blob 2); AnimationFrame 16 None;
    DataAvailable (sample_blob 0); DataAvailable (sample_blob 1);
    AnimationFrame 15016 None; DataAvailable (sample_blob 3); StopEvent ].

(** A browser whose [MediaRecorder] constructor always throws. *)
Definition no_recorder : Platform := {|
  Math_sin := fun _ => 0;
  isTypeSupported := fun _ => false;
  MediaRecorder_new := fun _ =>
    Some {| message := Some "NotSupportedError"%string |};
  MediaRecorder_start := None
|}.

(** The component after a run that finished followed by a run that failed:
    the state is "error" and the buffer still holds the fragments of the
    first of the two. *)
Definition stale : Component :=
  comp (run no_recorder 20000 (comp (run bare 0 initial chunked_run)) []).

(** ** The drawing helpers, call by call *)

(** [Math.PI]: the double nearest to pi, which is this rational. *)
Definition Math_PI : Q := 884279719003555 # 281474976710656.

(** The template strings assigned to [ctx.font]:
    [<weight> <size>px <family>]. *)
Inductive Font : Type := font (weight : Z) (px : Q) (family : string).

(** Every method call and property assignment the program makes on the 2D
    context. *)
Inductive Op : Type :=
| op_clearRect (x y w h : Q)
| op_fillRect (x y w h : Q)
| op_fillStyle (s : Style)
| op_strokeStyle (s : Style)
| op_lineWidth (w : Q)
| op_lineCap (cap : string)
| op_globalAlpha (a : Q)
| op_shadowColor (color : string)
| op_shadowBlur (b : Q)
| op_font (f : Font)
| op_textAlign (a : string)
| op_textBaseline (b : string)
| op_save
| op_restore
| op_translate (x y : Q)
| op_scale (sx sy : Q)
| op_beginPath
| op_closePath
| op_moveTo (x y : Q)
| op_lineTo (x y : Q)
| op_quadraticCurveTo (cpx cpy x y : Q)
| op_arc (x y r a0 a1 : Q)
| op_roundRect (x y w h r : Q)
| op_fill
| op_stroke
| op_fillText (txt : string) (x y : Q).

Definition drawHeader (cv : Canvas) (txt color : string) (size yRel : Q)
  : list Op :=
  [ op_fillStyle (Css color);
    op_font (font 800 size "Inter, ui-sans-serif");
    op_textAlign "center";
    op_textBaseline "middle";
    op_fillText txt (width cv / 2) (height cv * yRel) ].

Definition drawSub (cv : Canvas) (txt color : string) (size yRel : Q)
  : list Op :=
  [ op_fillStyle (Css color);
    op_font (font 600 size "Inter, ui-sans-serif");
    op_textAlign "center";
    op_textBaseline "middle";
    op_fillText txt (width cv / 2) (height cv * yRel) ].

Definition roundRectPath (x y w h r : Q) : list Op :=
  [ op_beginPath; op_roundRect x y w h r ].

(** [measure txt] is [ctx.measureText(txt).width] under the font
    [700 44px Inter]. *)
Definition roundedTag (measure : string -> Q) (txt : string) (x y : Q)
  (color : string) (pal : Palette) : list Op :=
  let padX := 28 in
  let padY := 16 in
  let w := measure txt + padX * 2 in
  let h := 44 + padY * 2 in
  [ op_save; op_font (font 700 44 "Inter");
    op_fillStyle (Css "#ffffff"); op_strokeStyle (Css color);
    op_lineWidth 6 ]
  ++ roundRectPath (x - w / 2) (y - h / 2) w h 30
  ++ [ op_fill; op_stroke; op_fillStyle (Css color);
       op_textAlign "center"; op_textBaseline "middle";
       op_fillText txt x (y + 2); op_restore ].

Definition makeHouseIcon (x y w h : Q) (pal : Palette) : list Op :=
  [ op_save; op_fillStyle (Css "#ffffff"); op_strokeStyle (Css (primary pal));
    op_lineWidth 12 ]
  ++ roundRectPath (x + w * 0.15) (y + h * 0.45) (w * 0.7) (h * 0.45) 30
  ++ [ op_fill; op_stroke;
       op_beginPath;
       op_moveTo (x + w * 0.5) (y + h * 0.05);
       op_lineTo (x + w * 0.1) (y + h * 0.5);
       op_lineTo (x + w * 0.9) (y + h * 0.5);
       op_closePath;
       op_fillStyle (Css (primary pal)); op_fill;
       op_fillStyle (Css (secondary pal)) ]
  ++ roundRectPath (x + w * 0.45) (y + h * 0.58) (w * 0.1) (h * 0.22) 12
  ++ [ op_fill; op_restore ].

Definition makeStoveIcon (x y w h : Q) (pal : Palette) : list Op :=
  [ op_save; op_fillStyle (Css "#ffffff"); op_strokeStyle (Css (text pal));
    op_lineWidth 12 ]
  ++ roundRectPath (x + w * 0.05) (y + h * 0.15) (w * 0.9) (h * 0.75) 20
  ++ [ op_fill; op_stroke; op_fillStyle (Css "#f3f4f6") ]
  ++ roundRectPath (x + w * 0.08) (y + h * 0.18) (w * 0.84) (h * 0.18) 16
  ++ [ op_fill; op_fillStyle (Css (primary pal)) ]
  ++ flat_map (fun i =>
       [ op_beginPath;
         op_arc (x + w * (0.2 + num i * 0.2)) (y + h * 0.27) 16 0
           (Math_PI * 2);
         op_fill ]) (seq 0 4)
  ++ [ op_strokeStyle (Css (muted pal)); op_lineWidth 10;
       op_beginPath;
       op_roundRect (x + w * 0.12) (y + h * 0.42) (w * 0.76) (h * 0.18) 16;
       op_stroke;
       op_fillStyle (Css "#e5e7eb") ]
  ++ roundRectPath (x + w * 0.15) (y + h * 0.62) (w * 0.7) (h * 0.22) 16
  ++ [ op_fill; op_restore ].

Definition makeDeviceIcon (x y w h : Q) (pal : Palette) : list Op :=
  [ op_save; op_fillStyle (Css "#ffffff"); op_strokeStyle (Css (primary pal));
    op_lineWidth 12 ]
  ++ roundRectPath (x + w * 0.15) (y + h * 0.15) (w * 0.7) (h * 0.7) 40
  ++ [ op_fill; op_stroke; op_strokeStyle (Css (muted pal)); op_lineWidth 8 ]
  ++ flat_map (fun i =>
       let gy := y + h * 0.35 + num i * 26 in
       [ op_beginPath;
         op_moveTo (x + w * 0.25) gy;
         op_lineTo (x + w * 0.75) gy;
         op_stroke ]) (seq 0 4)
  ++ [ op_fillStyle (Css (ok pal));
       op_beginPath;
       op_arc (x + w * 0.5) (y + h * 0.25) 14 0 (Math_PI * 2);
       op_fill; op_restore ].

Definition makeShieldIcon (x y w h : Q) (pal : Palette) : list Op :=
  [ op_save; op_beginPath;
    op_moveTo (x + w * 0.5) y;
    op_lineTo (x + w * 0.9) (y + h * 0.25);
    op_lineTo (x + w * 0.8) (y + h * 0.85);
    op_lineTo (x + w * 0.5) (y + h);
    op_lineTo (x + w * 0.2) (y + h * 0.85);
    op_lineTo (x + w * 0.1) (y + h * 0.25);
    op_closePath;
    op_fillStyle (Css "#ffffff"); op_strokeStyle (Css (ok pal));
    op_lineWidth 16; op_fill; op_stroke; op_restore ].

Definition makeWhatsAppIcon (x y w h : Q) (pal : Palette) : list Op :=
  [ op_save; op_beginPath;
    op_arc (x + w / 2) (y + h / 2) (Math_min w h / 2) 0 (Math_PI * 2);
    op_fillStyle (Css "#25D366"); op_fill;
    op_strokeStyle (Css "white"); op_lineWidth 10; op_lineCap "round";
    op_beginPath;
    op_moveTo (x + w * 0.35) (y + h * 0.45);
    op_quadraticCurveTo (x + w * 0.6) (y + h * 0.35)
      (x + w * 0.65) (y + h * 0.6);
    op_stroke; op_restore ].

(** The closure each icon name stands for in [playAnimation]. *)
Definition drawIcon (i : Icon) : Q -> Q -> Q -> Q -> Palette -> list Op :=
  match i with
  | house => makeHouseIcon
  | stove => makeStoveIcon
  | device => makeDeviceIcon
  | shield => makeShieldIcon
  | whatsapp => makeWhatsAppIcon
  end.

Definition ctaButton (i : Icon) (x y : Q) (label : string) (pal : Palette)
  : list Op :=
  let w := 760 in
  let h := 140 in
  [ op_save ]
  ++ roundRectPath (x - w / 2) (y - h / 2) w h 30
  ++ [ op_fillStyle (Css (primary pal));
       op_shadowColor "rgba(0,0,0,.12)"; op_shadowBlur 30; op_fill ]
  ++ drawIcon i (x - w / 2 + 36) (y - 48) 96 96 pal
  ++ [ op_fillStyle (Css "white"); op_font (font 800 58 "Inter");
       op_textAlign "center"; op_textBaseline "middle";
       op_fillText label (x + 80) (y + 4); op_restore ].

(** What one call of [frame] does on the context. *)
Definition ops_of (measure : string -> Q) (cv : Canvas) (c : Call)
  : list Op :=
  match c with
  | ctx_clearRect x y w h => [op_clearRect x y w h]
  | ctx_fillRect x y w h => [op_fillRect x y w h]
  | ctx_fillStyle s => [op_fillStyle s]
  | ctx_strokeStyle s => [op_strokeStyle s]
  | ctx_lineWidth w => [op_lineWidth w]
  | ctx_lineCap cap => [op_lineCap cap]
  | ctx_globalAlpha a => [op_globalAlpha a]
  | ctx_save => [op_save]
  | ctx_restore => [op_restore]
  | ctx_translate x y => [op_translate x y]
  | ctx_scale sx sy => [op_scale sx sy]
  | ctx_beginPath => [op_beginPath]
  | ctx_moveTo x y => [op_moveTo x y]
  | ctx_lineTo x y => [op_lineTo x y]
  | ctx_roundRect x y w h r => [op_roundRect x y w h r]
  | ctx_fill => [op_fill]
  | ctx_stroke => [op_stroke]
  | call_drawHeader txt color size yRel => drawHeader cv txt color size yRel
  | call_drawSub txt color size yRel => drawSub cv txt color size yRel
  | call_roundedTag txt x y color pal => roundedTag measure txt x y color pal
  | call_ctaButton i x y label pal => ctaButton i x y label pal
  | call_icon i x y w h pal => drawIcon i x y w h pal
  end.

(** Everything one frame does on the context, helpers included. *)
Definition frameOps (P : Platform) (measure : string -> Q) (cv : Canvas)
  (start now : Q) : list Op :=
  flat_map (ops_of measure cv) (fst (frame P cv start now)).

(** ** Observations on context operations *)

(** The nesting depth of [save]/[restore] after [ops], starting at depth
    [d].  [None] when a [restore] has no [save] to undo, or when one of the
    settings a [restore] undoes (transform, alpha, shadow, stroke style, line
    width, line cap) is changed outside every [save]. *)
Fixpoint scopedDepth (d : nat) (ops : list Op) : option nat :=
  match ops with
  | [] => Some d
  | op :: rest =>
      match op with
      | op_save => scopedDepth (S d) rest
      | op_restore =>
          match d with
          | O => None
          | S d' => scopedDepth d' rest
          end
      | op_translate _ _ | op_scale _ _ | op_globalAlpha _
      | op_shadowColor _ | op_shadowBlur _
      | op_strokeStyle _ | op_lineWidth _ | op_lineCap _ =>
          match d with
          | O => None
          | S _ => scopedDepth d rest
          end
      | _ => scopedDepth d rest
      end
  end.

(** The current path: not begun, being built, or built and painted. *)
Inductive PathState : Type := NoPath | Building | Painted.

(** The state of the current path after [ops].  [None] when a segment is
    added to a path that was not begun or was already painted, or when
    [fill] or [stroke] runs before any path was begun. *)
Fixpoint pathAfter (st : PathState) (ops : list Op) : option PathState :=
  match ops with
  | [] => Some st
  | op :: rest =>
      match op with
      | op_beginPath => pathAfter Building rest
      | op_moveTo _ _ | op_lineTo _ _ | op_closePath
      | op_quadraticCurveTo _ _ _ _ | op_arc _ _ _ _ _
      | op_roundRect _ _ _ _ _ =>
          match st with
          | Building => pathAfter Building rest
          | _ => None
          end
      | op_fill | op_stroke =>
          match st with
          | NoPath => None
          | _ => pathAfter Painted rest
          end
      | _ => pathAfter st rest
      end
  end.

(** The corners of the rectangle a path segment stays in.  A quadratic
    curve stays in the hull of its start, control and end points. *)
Definition corners (op : Op) : list (Q * Q) :=
  match op with
  | op_moveTo x y | op_lineTo x y => [(x, y)]
  | op_quadraticCurveTo cpx cpy x y => [(cpx, cpy); (x, y)]
  | op_arc x y r _ _ => [(x - r, y - r); (x + r, y + r)]
  | op_roundRect x y w h _ => [(x, y); (x + w, y + h)]
  | _ => []
  end.

Definition inBox (x y w h : Q) (pt : Q * Q) : Prop :=
  x <= fst pt /\ fst pt <= x + w /\ y <= snd pt /\ snd pt <= y + h.

(** All path segments of [ops] stay in the box. *)
Definition pathInBox (x y w h : Q) (ops : list Op) : Prop :=
  Forall (inBox x y w h) (flat_map corners ops).

(** The smallest box sizes at which the fixed-size parts of an icon (the
    knobs of the stove; the lamp and the grill of the device) fit. *)
Definition minWidth (i : Icon) : Q :=
  match i with
  | stove => 80
  | device => 28
  | _ => 0
  end.

Definition minHeight (i : Icon) : Q :=
  match i with
  | stove => 60
  | device => 120
  | _ => 0
  end.

(** The factors of the [scale] calls of a frame. *)
Definition scales (calls : list Call) : list (Q * Q) :=
  flat_map (fun c => match c with
                     | ctx_scale sx sy => [(sx, sy)]
                     | _ => []
                     end) calls.

(** ** What the component renders *)

Record View : Type := {
  button_disabled : bool;
  button_label : string;
  (** the download link: the blob its [href] names and its [download]
      attribute *)
  download_link : option (Blob * string);
  (** the text of the error line *)
  error_line : option string
}.

(** The JSX returned by [VideoGenerator].  [{error && ...}] renders nothing
    for [null] and for the empty string. *)
Definition render (c : Component) : View := {|
  button_disabled :=
    match recState c with Recording => true | _ => false end;
  button_label :=
    match recState c with
    | Recording => "Generating 15s video..."
    | _ => "Generate 15s Video"
    end;
  download_link :=
    match blobUrl c with
    | Some b => Some (b, "gas-safety-video.webm"%string)
    | None => None
    end;
  error_line :=
    match error c with
    | Some EmptyString => None
    | Some m => Some m
    | None => None
    end
|}.

(** A click on the button: [start] runs unless the button is disabled. *)
Definition click (P : Platform) (t0 : Q) (evs : list EnvEvent)
  (c : Component) : Component :=
  if button_disabled (render c) then c else comp (drive P t0 c evs).

Definition is_createObjectURL (a : Action) : bool :=
  match a with
  | act_createObjectURL _ => true
  | _ => false
  end.

(** Is the type one of the WebM candidates? *)
Definition is_webm (t : string) : bool :=
  String.eqb t "video/webm;codecs=vp9" || String.eqb t "video/webm;codecs=vp8"
  || String.eqb t "video/webm".

(** Events during the animation that neither throw nor end it. *)
Definition quiet (t0 : Q) (ev : EnvEvent) : Prop :=
  match ev with
  | AnimationFrame now None => now < t0 + DURATION_MS
  | AnimationFrame _ (Some _) => False
  | DataAvailable _ => True
  | StopEvent => False
  end.

Definition is_data (ev : EnvEvent) : Prop :=
  match ev with
  | DataAvailable _ => True
  | _ => False
  end.


(** The place of a phase on the timeline; 4 once the timeline is over and
    no phase is drawn. *)
Definition rank (ph : option Phase) : nat :=
  match ph with
  | Some Intro => 0
  | Some Install => 1
  | Some Prevent => 2
  | Some CTA => 3
  | None => 4
  end.

(** * Properties *)

(** ** Tests on numbers *)

Lemma Qltb_lt (x y : Q) : (x <? y) = true <-> x < y.
Proof.
  unfold Qltb. rewrite negb_true_iff, <- not_true_iff_false, Qle_bool_iff.
  split; [apply Qnot_le_lt | apply Qlt_not_le].
Qed.

Lemma Qltb_ge (x y : Q) : (x <? y) = false <-> y <= x.
Proof.
  unfold Qltb. rewrite negb_false_iff. apply Qle_bool_iff.
Qed.

Lemma Qleb_le (x y : Q) : (x <=? y) = true <-> x <= y.
Proof. apply Qle_bool_iff. Qed.

Lemma Qleb_gt (x y : Q) : (x <=? y) = false <-> y < x.
Proof.
  unfold Qleb. rewrite <- not_true_iff_false, Qle_bool_iff.
  split; [apply Qnot_le_lt | apply Qlt_not_le].
Qed.

(** Case analysis on the tests of a goal, each outcome turned into an
    order fact. *)
Ltac case_tests :=
  repeat match goal with
  | |- context [?x <? ?y] =>
      let E := fresh "E" in
      destruct (x <? y) eqn:E;
      [apply Qltb_lt in E | apply Qltb_ge in E]
  | |- context [?x <=? ?y] =>
      let E := fresh "E" in
      destruct (x <=? y) eqn:E;
      [apply Qleb_le in E | apply Qleb_gt in E]
  end.

(** ** Phase selection *)

Lemma phaseOf_window (ms : Q) (ph : Phase) :
  0 <= ms -> phaseOf ms = Some ph -> window ph ms.
Proof.
  unfold phaseOf. intros H0. case_tests; intros [= <-]; simpl; lra.
Qed.

Lemma window_unique (ms : Q) (ph ph' : Phase) :
  window ph ms -> window ph' ms -> ph' = ph.
Proof.
  destruct ph, ph'; simpl; intros; try reflexivity; lra.
Qed.

Lemma phaseOf_some (ms : Q) :
  ms <= 15000 -> exists ph, phaseOf ms = Some ph.
Proof.
  unfold phaseOf. intros H. case_tests; eauto. lra.
Qed.

Lemma phaseOf_none (ms : Q) : 15000 < ms <-> phaseOf ms = None.
Proof.
  unfold phaseOf. case_tests; split; intros H; try discriminate;
    try reflexivity; lra.
Qed.

(** C1. For every elapsed time in [0, 15000] the chain of tests of [frame]
    selects a phase, the selected phase is the one whose window contains the
    instant, no other window contains it, and the frame draws that phase's
    composition after the background.  The boundaries fall as the windows
    say: 2999 is Intro, 3000 Install, 8000 Prevent, 12000 and 15000 CTA. *)
Theorem phase_selection_total :
  (forall P cv start now,
     let ms := now - start in
     0 <= ms -> ms <= 15000 ->
     exists ph : Phase,
       phaseOf ms = Some ph /\ window ph ms /\
       (forall ph', window ph' ms -> ph' = ph) /\
       fst (frame P cv start now) =
       ctx_clearRect 0 0 (width cv) (height cv)
         :: drawBackground cv ++ drawPhase P cv now ms ph) /\
  phaseOf 0 = Some Intro /\
  phaseOf 2999 = Some Intro /\
  phaseOf 3000 = Some Install /\
  phaseOf 8000 = Some Prevent /\
  phaseOf 12000 = Some CTA /\
  phaseOf 15000 = Some CTA.
Proof.
  split; [| repeat split; reflexivity].
  intros P cv start now ms H0 H1.
  destruct (phaseOf_some ms H1) as [ph Hph].
  exists ph. split; [exact Hph |].
  pose proof (phaseOf_window ms ph H0 Hph) as Hw.
  split; [exact Hw |]. split.
  - intros ph' Hw'. exact (window_unique ms ph ph' Hw Hw').
  - unfold frame. simpl. fold ms. rewrite Hph. reflexivity.
Qed.

Lemma phase_selection_total_witness :
  0 <= 5100 - 100 /\ 5100 - 100 <= 15000 /\
  exists ph : Phase,
    phaseOf (5100 - 100) = Some ph /\ window ph (5100 - 100) /\
    (forall ph', window ph' (5100 - 100) -> ph' = ph) /\
    fst (frame bare canvas 100 5100) =
    ctx_clearRect 0 0 (width canvas) (height canvas)
      :: drawBackground canvas
      ++ drawPhase bare canvas 5100 (5100 - 100) ph.
Proof.
  split; [discriminate |]. split; [discriminate |].
  apply (proj1 phase_selection_total bare canvas 100 5100); discriminate.
Defined.

(** ** Progress *)

Lemma progress_min (start now : Q) :
  progress start now == Qmin 1 ((now - start) / 15000).
Proof.
  unfold progress, Math_min, DURATION_MS.
  apply Q.min_compat; [reflexivity |].
  apply Qdiv_comp; [reflexivity | ring].
Qed.

Lemma div_duration_le (x y : Q) : x <= y -> x / 15000 <= y / 15000.
Proof.
  intros H. unfold Qdiv. apply Qmult_le_compat_r; [exact H | discriminate].
Qed.

Lemma div_duration_pos (x : Q) : 0 <= x -> 0 <= x / 15000.
Proof.
  intros H. unfold Qdiv. apply Qmult_le_0_compat; [exact H | discriminate].
Qed.

Lemma div_duration_neg (x : Q) : x < 0 -> x / 15000 < 0.
Proof.
  intros H. unfold Qdiv.
  setoid_replace 0 with (0 * / 15000) by ring.
  apply Qmult_lt_compat_r; [reflexivity | exact H].
Qed.

Lemma div_duration_ge1 (x : Q) : 15000 <= x -> 1 <= x / 15000.
Proof.
  intros H. setoid_replace 1 with (15000 / 15000) by reflexivity.
  apply div_duration_le, H.
Qed.

(** What [Math.min(1, ...)] does at any pair of readings: the local [t] of
    [frame] is [min(1, elapsedMs / 15000)], never above 1, exactly 1 from
    15000 ms on, non-decreasing in the timestamp, and non-negative and equal
    to the clamped value when the elapsed time is not negative. *)
Lemma progress_upper_clamp (start now : Q) :
  let ms := now - start in
  progress start now == Qmin 1 (ms / 15000) /\
  progress start now <= 1 /\
  (15000 <= ms -> progress start now == 1) /\
  (forall now', now <= now' -> progress start now <= progress start now') /\
  (0 <= ms ->
   0 <= progress start now /\ progress start now == clamp (ms / 15000) 0 1) /\
  (ms < 0 -> progress start now < 0).
Proof.
  intros ms. pose proof (progress_min start now) as E. fold ms in E.
  split; [exact E |]. split; [| split; [| split; [| split]]].
  - rewrite E. apply Q.le_min_l.
  - intros H. rewrite E. apply Q.min_l, div_duration_ge1, H.
  - intros now' H. rewrite E, (progress_min start now').
    apply Q.min_le_compat_l, div_duration_le. subst ms. lra.
  - intros H. pose proof (div_duration_pos ms H) as Hp.
    assert (0 <= Qmin 1 (ms / 15000)) as Hm
      by (apply Q.min_glb; [discriminate | exact Hp]).
    split; [rewrite E; exact Hm |].
    rewrite E. unfold clamp. symmetry. apply Q.max_r, Hm.
  - intros H. rewrite E.
    apply Qle_lt_trans with (ms / 15000);
      [apply Q.le_min_r | apply div_duration_neg, H].
Qed.

(** C3. [start] is read from [performance.now()] before the first frame and
    [now] after it, and the clock is monotonic, so [start <= now] at every
    frame.  For every such pair the per-frame progress equals
    [clamp(elapsedMs / 15000, 0, 1)]: it is never below 0, never above 1,
    exactly 1 whenever [elapsedMs >= 15000], and non-decreasing in the
    timestamp. *)
Theorem progress_clamped (start now : Q) :
  start <= now ->
  let ms := now - start in
  progress start now == clamp (ms / 15000) 0 1 /\
  0 <= progress start now /\
  progress start now <= 1 /\
  (15000 <= ms -> progress start now == 1) /\
  (forall now', now <= now' -> progress start now <= progress start now').
Proof.
  intros Hmono ms.
  destruct (progress_upper_clamp start now)
    as (_ & Hle & Hone & Hinc & Hpos & _).
  fold ms in Hone, Hpos.
  assert (0 <= ms) as H0 by (subst ms; lra).
  destruct (Hpos H0) as [Hge Hclamp].
  repeat split; assumption.
Qed.

Lemma progress_clamped_witness :
  100 <= 7600 /\
  progress 100 7600 == clamp ((7600 - 100) / 15000) 0 1 /\
  0 <= progress 100 7600 /\
  progress 100 7600 <= 1 /\
  (15000 <= 7600 - 100 -> progress 100 7600 == 1) /\
  (forall now', 7600 <= now' -> progress 100 7600 <= progress 100 now').
Proof.
  split; [discriminate |].
  apply (progress_clamped 100 7600). discriminate.
Defined.

(** ** Easing and the moving device *)

Lemma ease_cube (t : Q) : ease t == 1 - (1 - t) * ((1 - t) * (1 - t)).
Proof. unfold ease, Math_pow. simpl. reflexivity. Qed.

Lemma cube_le (u v : Q) :
  0 <= v -> v <= u -> v * (v * v) <= u * (u * u).
Proof.
  intros Hv Hvu.
  assert (0 <= u) as Hu by lra.
  assert (v * v <= u * u) as Hsq by nra.
  assert (0 <= v * v) as Hvv by nra.
  apply Qle_trans with (v * (u * u)); nra.
Qed.

Lemma ease_mono (a b : Q) : 0 <= a -> a <= b -> b <= 1 -> ease a <= ease b.
Proof.
  intros Ha Hab Hb. rewrite !ease_cube.
  pose proof (cube_le (1 - a) (1 - b)) as H.
  lra.
Qed.

Lemma local_lt_1 (ms : Q) : ms < 8000 -> (ms - 3000) / 5000 < 1.
Proof.
  intros H. setoid_replace 1 with (5000 / 5000) by reflexivity.
  unfold Qdiv. apply Qmult_lt_compat_r; [reflexivity | lra].
Qed.

Lemma frame_install (P : Platform) (cv : Canvas) (start now : Q) :
  phaseOf (now - start) = Some Install ->
  devicePosition (fst (frame P cv start now)) = Some (deviceX cv (now - start)).
Proof.
  intros H. unfold frame. simpl. rewrite H. reflexivity.
Qed.

Lemma frame_prevent (P : Platform) (cv : Canvas) (start now : Q) :
  phaseOf (now - start) = Some Prevent ->
  devicePosition (fst (frame P cv start now)) = None /\
  drawsIcon device (fst (frame P cv start now)) = false.
Proof.
  intros H. unfold frame. simpl. rewrite H. split; reflexivity.
Qed.

Lemma phaseOf_install (ms : Q) :
  3000 <= ms -> ms < 8000 -> phaseOf ms = Some Install.
Proof.
  intros H0 H1. unfold phaseOf. case_tests; try reflexivity; lra.
Qed.

Lemma phaseOf_prevent (ms : Q) :
  8000 <= ms -> ms < 12000 -> phaseOf ms = Some Prevent.
Proof.
  intros H0 H1. unfold phaseOf. case_tests; try reflexivity; lra.
Qed.

Lemma phaseOf_install_inv (ms : Q) :
  phaseOf ms = Some Install -> 3000 <= ms /\ ms < 8000.
Proof.
  unfold phaseOf. case_tests; intros [=]. split; assumption.
Qed.

Lemma frame_no_moving_device (P : Platform) (cv : Canvas) (start now : Q) :
  now - start < 3000 \/ 8000 <= now - start ->
  devicePosition (fst (frame P cv start now)) = None.
Proof.
  intros H. unfold frame. cbn [fst].
  destruct (phaseOf (now - start)) as [[] |] eqn:Hph; try reflexivity.
  destruct (phaseOf_install_inv _ Hph). lra.
Qed.

(** C8, as the code has it.  [ease] is 0 at 0, 1 at 1 and non-decreasing on
    [0, 1], and [lerp(0.2 W, 0.5 W, ease(1))] is [0.5 W].  The moving device
    is drawn in the Install window [3000, 8000) and in no other frame, at
    [lerp(0.2 W, 0.5 W, ease(min(1, (elapsedMs - 3000) / 5000)))]; at 8000 ms
    the frame is a Prevent frame and draws no device icon. *)
Theorem device_drawn_in_install_only (P : Platform) (cv : Canvas)
  (start now : Q) :
  let ms := now - start in
  (ease 0 == 0 /\ ease 1 == 1 /\
   (forall a b, 0 <= a -> a <= b -> b <= 1 -> ease a <= ease b)) /\
  lerp (width cv * 0.2) (width cv * 0.5) (ease 1) == width cv * 0.5 /\
  (3000 <= ms -> ms < 8000 ->
   devicePosition (fst (frame P cv start now)) =
   Some (lerp (width cv * 0.2) (width cv * 0.5)
           (ease (Math_min 1 ((ms - 3000) / 5000))))) /\
  (ms < 3000 \/ 8000 <= ms ->
   devicePosition (fst (frame P cv start now)) = None) /\
  (ms == 8000 ->
   phaseOf ms = Some Prevent /\
   devicePosition (fst (frame P cv start now)) = None /\
   drawsIcon device (fst (frame P cv start now)) = false).
Proof.
  intros ms. split; [| split; [| split; [| split]]].
  - split; [reflexivity |]. split; [reflexivity |]. exact ease_mono.
  - unfold lerp. rewrite ease_cube. ring.
  - intros H0 H1.
    exact (frame_install P cv start now (phaseOf_install ms H0 H1)).
  - apply frame_no_moving_device.
  - intros H.
    assert (phaseOf ms = Some Prevent) as Hph
      by (apply phaseOf_prevent; lra).
    split; [exact Hph |]. apply frame_prevent, Hph.
Qed.

Lemma device_drawn_in_install_only_witness :
  (3000 <= 5500 - 0 /\ 5500 - 0 < 8000) /\
  devicePosition (fst (frame bare canvas 0 5500)) =
  Some (lerp (width canvas * 0.2) (width canvas * 0.5)
          (ease (Math_min 1 ((5500 - 0 - 3000) / 5000)))) /\
  (8000 - 0 == 8000 /\
   devicePosition (fst (frame bare canvas 0 8000)) = None).
Proof.
  pose proof (device_drawn_in_install_only bare canvas 0 5500) as H.
  cbv zeta in H. destruct H as (_ & _ & Hin & _).
  pose proof (device_drawn_in_install_only bare canvas 0 8000) as H'.
  cbv zeta in H'. destruct H' as (_ & _ & _ & _ & Hat).
  split; [split; reflexivity || discriminate |].
  split; [apply Hin; reflexivity || discriminate |].
  split; [reflexivity |].
  exact (proj1 (proj2 (Hat ltac:(reflexivity)))).
Defined.

(** C8, as stated, fails: at 8000 ms after the start the frame selects
    Prevent; it draws no device icon and no moving device, so no device
    stands at [0.5 W]. *)
Lemma no_device_at_8000 :
  phaseOf (8000 - 0) = Some Prevent /\
  drawsIcon device (fst (frame bare canvas 0 8000)) = false /\
  devicePosition (fst (frame bare canvas 0 8000)) = None.
Proof.
  repeat split; reflexivity.
Qed.

(** ** Confetti *)

Lemma layoutOf_particles (f : nat -> Particle) (l : list nat) :
  layoutOf (flat_map (fun i => drawParticle (f i)) l) = map f l.
Proof.
  induction l as [| i l IH]; [reflexivity |].
  cbn [flat_map map drawParticle app layoutOf]. rewrite IH.
  destruct (f i); reflexivity.
Qed.

Lemma layoutOf_skip (pre calls : list Call) :
  forallb (fun c => negb (setsHue c)) pre = true ->
  layoutOf (pre ++ calls) = layoutOf calls.
Proof.
  induction pre as [| c pre IH]; [reflexivity |].
  cbn [forallb]. rewrite andb_true_iff. intros [Hc Hpre].
  rewrite <- (IH Hpre). destruct c; try reflexivity.
  destruct s; try reflexivity. discriminate Hc.
Qed.

Lemma drawConfetti_layout (P : Platform) (now : Q) (cv : Canvas) :
  layoutOf (drawConfetti P now cv) = map (particle P now cv) (seq 0 80).
Proof. apply layoutOf_particles. Qed.

Lemma drawConfetti_sin (P P' : Platform) (now : Q) (cv : Canvas) :
  (forall x, Math_sin P' x = Math_sin P x) ->
  drawConfetti P' now cv = drawConfetti P now cv.
Proof.
  intros H. unfold drawConfetti. apply flat_map_ext. intros i.
  unfold particle, rng. rewrite !H. reflexivity.
Qed.

Lemma phaseOf_cta (ms : Q) :
  12000 <= ms -> ms <= 15000 -> phaseOf ms = Some CTA.
Proof.
  intros H0 H1. unfold phaseOf. case_tests; try reflexivity; lra.
Qed.

Lemma frame_cta_layout (P : Platform) (cv : Canvas) (start now : Q) :
  phaseOf (now - start) = Some CTA ->
  layoutOf (fst (frame P cv start now)) = layoutOf (drawConfetti P now cv).
Proof.
  intros H. unfold frame. cbn [fst]. rewrite H.
  cbn [drawPhase drawBackground].
  rewrite app_comm_cons, app_assoc.
  apply layoutOf_skip. reflexivity.
Qed.

(** C9. The confetti is a function of the timestamp [now] (and of the
    canvas size and [Math.sin]) alone: it paints exactly 80 particles, the
    [i]-th with position, size and hue computed from
    [frac(sin(seed) * 10000)] at [seed = i * 123.456 + now * 0.002] and the
    three shifted seeds; it is the same on two browsers with the same
    [Math.sin], and two CTA frames that read the same [now] paint the same
    80 particles whatever their start times. *)
Theorem confetti_deterministic (P : Platform) (now : Q) (cv : Canvas) :
  let layout := layoutOf (drawConfetti P now cv) in
  let frac := fun seed : Q =>
    Math_sin P seed * 10000 - inject_Z (Qfloor (Math_sin P seed * 10000)) in
  List.length layout = 80%nat /\
  (forall i : nat, (i < 80)%nat ->
     let seed := num i * 123.456 + now * 0.002 in
     nth_error layout i =
     Some {| p_x := frac seed * width cv;
             p_y := frac (seed + 1.23) * height cv * 0.6 + height cv * 0.2;
             p_size := 6 + frac (seed + 2.34) * 14;
             p_hue := 20 + frac (seed + 3.45) * 40 |}) /\
  (forall P' : Platform,
     (forall x, Math_sin P' x = Math_sin P x) ->
     drawConfetti P' now cv = drawConfetti P now cv) /\
  (forall start start' : Q,
     12000 <= now - start -> now - start <= 15000 ->
     12000 <= now - start' -> now - start' <= 15000 ->
     layoutOf (fst (frame P cv start now)) = layout /\
     layoutOf (fst (frame P cv start' now)) = layout).
Proof.
  intros layout frac. subst layout. rewrite drawConfetti_layout.
  split; [| split; [| split]].
  - rewrite length_map, length_seq. reflexivity.
  - intros i Hi seed.
    rewrite nth_error_map, nth_error_nth' with (d := 0%nat)
      by (rewrite length_seq; exact Hi).
    rewrite seq_nth by exact Hi. reflexivity.
  - intros P'. apply drawConfetti_sin.
  - intros start start' H0 H1 H0' H1'.
    rewrite <- drawConfetti_layout.
    split; apply frame_cta_layout, phaseOf_cta; assumption.
Qed.

Lemma confetti_deterministic_witness :
  ((7 < 80)%nat /\ 12000 <= 13000 - 0 /\ 13000 - 0 <= 15000 /\
   12000 <= 13000 - 500 /\ 13000 - 500 <= 15000) /\
  List.length (layoutOf (drawConfetti bare 13000 canvas)) = 80%nat /\
  (exists p : Particle,
     nth_error (layoutOf (drawConfetti bare 13000 canvas)) 7 = Some p /\
     p_x p == 0 /\ p_y p == 384 /\ p_size p == 6 /\ p_hue p == 20) /\
  layoutOf (fst (frame bare canvas 0 13000))
  = layoutOf (fst (frame bare canvas 500 13000)).
Proof.
  pose proof (confetti_deterministic bare 13000 canvas) as H.
  cbv zeta in H. destruct H as (Hlen & Hnth & _ & Hframes).
  split; [repeat split; try discriminate; lia |].
  split; [exact Hlen |]. split.
  - eexists. split; [apply (Hnth 7%nat); lia |].
    repeat split; reflexivity.
  - destruct (Hframes 0 500) as [-> ->]; reflexivity || discriminate.
Defined.

(** ** Format selection *)

Lemma firstSupported_some (P : Platform) (types : list string) (t : string) :
  firstSupported P types = Some t ->
  exists pre post,
    types = pre ++ t :: post /\
    isTypeSupported P t = true /\
    (forall u, In u pre -> isTypeSupported P u = false).
Proof.
  induction types as [| u types IH]; [discriminate |].
  cbn [firstSupported]. destruct (isTypeSupported P u) eqn:Hu.
  - intros [= <-]. exists [], types. repeat split; [exact Hu |].
    intros ? [].
  - intros H. destruct (IH H) as (pre & post & -> & Ht & Hpre).
    exists (u :: pre), post. repeat split; [exact Ht |].
    intros v [<- | Hv]; [exact Hu | exact (Hpre v Hv)].
Qed.

Lemma firstSupported_none (P : Platform) (types : list string) :
  firstSupported P types = None <->
  (forall u, In u types -> isTypeSupported P u = false).
Proof.
  induction types as [| u types IH]; cbn [firstSupported].
  - split; [intros _ ? [] | reflexivity].
  - destruct (isTypeSupported P u) eqn:Hu; split.
    + discriminate.
    + intros H. rewrite (H u (or_introl eq_refl)) in Hu. discriminate.
    + intros H v [<- | Hv]; [exact Hu | exact (proj1 IH H v Hv)].
    + intros H. apply IH. intros v Hv. apply H. right. exact Hv.
Qed.

Lemma deliver_no_recorder (P : Platform) (s : RunState) (ev : EnvEvent) :
  stage s = Failed -> rec s = None -> deliver P s ev = s.
Proof.
  intros Hst Hrec. unfold deliver, step. rewrite Hst, Hrec.
  destruct ev as [now [e |] | data |]; reflexivity.
Qed.

Lemma drive_no_recorder (P : Platform) (evs : list EnvEvent) (s : RunState) :
  stage s = Failed -> rec s = None -> fold_left (deliver P) evs s = s.
Proof.
  intros Hst Hrec. induction evs as [| ev evs IH]; [reflexivity |].
  cbn [fold_left]. rewrite (deliver_no_recorder P s ev Hst Hrec). exact IH.
Qed.

(** C4.  On a browser whose [MediaRecorder] constructor keeps to its
    contract (it throws for a type reported as unsupported): if no candidate
    is supported, the constructor throws for the type selected, so the run
    fails before the encoder is started: no recorder exists or is stored,
    [start()] is never called, the component enters state "error" showing
    the thrown message and no artifact is made, whatever events follow.  If
    some candidate is supported, the first supported one in list order is
    the type selected. *)
Theorem unsupported_fails_fast (P : Platform) (t0 : Q) (c : Component) :
  conforming P ->
  let mime := getSupportedMimeType P in
  ((forall u, In u candidates -> isTypeSupported P u = false) ->
   exists e,
     MediaRecorder_new P mime = Some e /\
     forall evs,
       let s := drive P t0 c evs in
       stage s = Failed /\ existsb is_start (trace s) = false /\
       rec s = None /\ mediaRecorderRef (comp s) = mediaRecorderRef c /\
       recState (comp s) = Error /\ error (comp s) = Some (shown e) /\
       artifact s = None) /\
  ((exists u, In u candidates /\ isTypeSupported P u = true) ->
   exists pre post,
     candidates = pre ++ mime :: post /\
     isTypeSupported P mime = true /\
     (forall u, In u pre -> isTypeSupported P u = false)).
Proof.
  intros Hconf mime. split.
  - intros Hnone.
    assert (mime = "video/webm"%string) as Hmime.
    { subst mime. unfold getSupportedMimeType.
      rewrite (proj2 (firstSupported_none P candidates) Hnone).
      reflexivity. }
    assert (isTypeSupported P mime = false) as Hunsup.
    { rewrite Hmime. apply Hnone. unfold candidates. cbn. tauto. }
    destruct (MediaRecorder_new P mime) as [e |] eqn:He;
      [| exfalso; exact (Hconf mime Hunsup He)].
    exists e. split; [reflexivity |]. intros evs s.
    assert (start P t0 c =
            {| comp := catch e (setBlobUrl None (setError None c));
               stage := Failed;
               trace := [ act_captureStream 30;
                          act_newMediaRecorder mime 6000000 ];
               rec := None; clock := t0 |}) as Hstart
      by (unfold start; fold mime; rewrite He; reflexivity).
    subst s. unfold drive. rewrite Hstart.
    rewrite drive_no_recorder by reflexivity.
    repeat split; reflexivity.
  - intros (u & Hin & Hu). subst mime. unfold getSupportedMimeType.
    destruct (firstSupported P candidates) as [t |] eqn:E.
    + exact (firstSupported_some P candidates t E).
    + rewrite (proj1 (firstSupported_none P candidates) E u Hin) in Hu.
      discriminate.
Qed.

Lemma unsupported_fails_fast_witness :
  conforming no_recorder /\
  (forall u, In u candidates -> isTypeSupported no_recorder u = false) /\
  exists e,
    MediaRecorder_new no_recorder (getSupportedMimeType no_recorder)
    = Some e /\
    forall evs,
      let s := drive no_recorder 0 initial evs in
      stage s = Failed /\ existsb is_start (trace s) = false /\
      rec s = None /\ mediaRecorderRef (comp s) = mediaRecorderRef initial /\
      recState (comp s) = Error /\ error (comp s) = Some (shown e) /\
      artifact s = None.
Proof.
  assert (conforming no_recorder) as Hconf by (intros t _; discriminate).
  assert (forall u, In u candidates -> isTypeSupported no_recorder u = false)
    as Hnone by reflexivity.
  split; [exact Hconf |]. split; [exact Hnone |].
  exact (proj1 (unsupported_fails_fast no_recorder 0 initial Hconf) Hnone).
Defined.

(** ** Runs: the shape of the trace, stage by stage *)

Section Run.

Variable P : Platform.
Variable t0 : Q.

Lemma start_shape (c : Component) : Shape P t0 (start P t0 c).
Proof.
  unfold start, Shape.
  destruct (MediaRecorder_new P _) as [e |];
    [| destruct (MediaRecorder_start P) as [e |]]; cbn.
  - split; [reflexivity |]. repeat split; eauto.
  - split; [reflexivity |]. repeat split; eauto.
  - split; [reflexivity |]. split; [reflexivity |]. split; [repeat split |].
    exists []. split; [reflexivity | constructor].
Qed.

Lemma ondataavailable_running (data : Blob) (c : Component) :
  running c -> running (ondataavailable data c).
Proof.
  unfold ondataavailable. destruct (Nat.eqb _ _); [trivial |].
  unfold running. cbn. trivial.
Qed.

Lemma frame_next (now : Q) :
  snd (frame P canvas t0 now) = Reschedule /\ now < t0 + DURATION_MS \/
  snd (frame P canvas t0 now) = Resolve /\ t0 + DURATION_MS <= now.
Proof.
  unfold frame. cbn [snd].
  destruct (now <? t0 + DURATION_MS) eqn:E.
  - left. split; [reflexivity | apply Qltb_lt, E].
  - right. split; [reflexivity | apply Qltb_ge, E].
Qed.

Lemma step_shape (s : RunState) (ev : EnvEvent) :
  Shape P t0 s -> Shape P t0 (step P s ev).
Proof.
  intros [Hclock H]. unfold step.
  destruct ev as [now [e |] | data |]; destruct (stage s) eqn:Hst;
    try (split; [exact Hclock | rewrite Hst; exact H]).
  - (* a frame throws *)
    destruct H as (Hrec & Hrun & nows & Htr & Hearly).
    split; [exact Hclock |]. cbn [advance stage trace comp rec].
    split; [exact Hrec |]. split; [exact Hrun |].
    exists nows, now, e. rewrite Htr, <- app_assoc.
    split; [reflexivity | exact Hearly].
  - (* a frame is drawn *)
    destruct H as (Hrec & Hrun & nows & Htr & Hearly).
    rewrite Hclock.
    destruct (frame P canvas t0 now) as [calls next] eqn:Hf.
    assert (act_frame now calls = frameAct P t0 now) as Hact
      by (unfold frameAct; rewrite Hf; reflexivity).
    destruct (frame_next now) as [[Hn Hlt] | [Hn Hge]];
      rewrite Hf in Hn; cbn [snd] in Hn; subst next;
      (split; [exact Hclock |]); cbn [advance stage trace comp rec];
      (split; [exact Hrec |]); (split; [exact Hrun |]).
    + exists (nows ++ [now]).
      rewrite Htr, <- app_assoc, map_app, Hact. split; [reflexivity |].
      apply Forall_app. split; [exact Hearly | repeat constructor; exact Hlt].
    + exists nows, now.
      rewrite Htr, <- app_assoc, map_app, Hact, <- app_assoc.
      split; [reflexivity |]. split; [exact Hearly | exact Hge].
  - (* data while animating *)
    destruct H as (Hrec & Hrun & Htr).
    split; [exact Hclock |]. cbn [with_comp stage trace comp rec].
    rewrite Hst. split; [exact Hrec |].
    split; [apply ondataavailable_running, Hrun | exact Htr].
  - (* data after a frame threw *)
    destruct H as (Hrec & Hrun & Htr).
    split; [exact Hclock |]. cbn [with_comp stage trace comp rec].
    rewrite Hst. split; [exact Hrec |].
    split; [apply ondataavailable_running, Hrun | exact Htr].
  - (* data while stopping *)
    destruct H as (Hrec & Hrun & Htr).
    split; [exact Hclock |]. cbn [with_comp stage trace comp rec].
    rewrite Hst. split; [exact Hrec |].
    split; [apply ondataavailable_running, Hrun | exact Htr].
  - (* the stop event *)
    destruct H as (Hrec & Hrun & nows & last & Htr & Hearly & Hlast).
    rewrite Hrec. unfold onstop.
    split; [exact Hclock |].
    cbn [advance with_comp stage trace comp rec].
    exists nows, last, (new_Blob (chunksRef (comp s)) (mimeType (recorder P))).
    rewrite Htr, <- !app_assoc.
    split; [reflexivity |]. split; [exact Hearly |]. split; [exact Hlast |].
    cbn. split; [reflexivity |]. split; [apply Hrun | reflexivity].
Qed.

Lemma fold_shape (evs : list EnvEvent) (s : RunState) :
  Shape P t0 s -> Shape P t0 (fold_left (step P) evs s).
Proof.
  revert s. induction evs as [| ev evs IH]; intros s H; [exact H |].
  cbn. apply IH, step_shape, H.
Qed.

Lemma run_shape (c : Component) (evs : list EnvEvent) :
  Shape P t0 (run P t0 c evs).
Proof. apply fold_shape, start_shape. Qed.

Lemma run_snoc (c : Component) (evs : list EnvEvent) (ev : EnvEvent) :
  run P t0 c (evs ++ [ev]) = step P (run P t0 c evs) ev.
Proof. unfold run. rewrite fold_left_app. reflexivity. Qed.

Lemma run_app (c : Component) (evs evs' : list EnvEvent) :
  run P t0 c (evs ++ evs') = fold_left (step P) evs' (run P t0 c evs).
Proof. unfold run. apply fold_left_app. Qed.

End Run.

(** ** Frames in a trace *)

Lemma frame_times_app (tr tr' : list Action) :
  frame_times (tr ++ tr') = frame_times tr ++ frame_times tr'.
Proof. unfold frame_times. apply flat_map_app. Qed.

Lemma frame_times_frames (P : Platform) (t0 : Q) (nows : list Q) :
  frame_times (map (frameAct P t0) nows) = nows.
Proof.
  induction nows as [| now nows IH]; [reflexivity |].
  cbn. f_equal. exact IH.
Qed.

Lemma filter_frames (P : Platform) (t0 : Q) (f : Action -> bool)
  (nows : list Q) :
  (forall now calls, f (act_frame now calls) = false) ->
  filter f (map (frameAct P t0) nows) = [].
Proof.
  intros Hf. induction nows as [| now nows IH]; [reflexivity |].
  cbn. unfold frameAct at 1. rewrite Hf. exact IH.
Qed.

Lemma forallb_frames (P : Platform) (t0 : Q) (nows : list Q) :
  forallb is_frame (map (frameAct P t0) nows) = true.
Proof.
  induction nows as [| now nows IH]; [reflexivity | exact IH].
Qed.

Lemma in_frames (P : Platform) (t0 : Q) (nows : list Q) (now : Q)
  (calls : list Call) :
  In (act_frame now calls) (map (frameAct P t0) nows) ->
  In now nows /\ calls = fst (frame P canvas t0 now).
Proof.
  rewrite in_map_iff. intros (n & Hn & Hin). unfold frameAct in Hn.
  injection Hn as -> <-. split; [exact Hin | reflexivity].
Qed.

(** Every trace is: actions of [start] that are no frames, then the frames
    of the timestamps [nows ++ final], then actions that are no frames.  The
    timestamps [nows] lie before the end of the timeline; [final] is empty
    until the promise of [playAnimation] resolves and then holds the one
    timestamp, at or after the end, at which it did. *)
Lemma shape_frames (P : Platform) (t0 : Q) (s : RunState) :
  Shape P t0 s ->
  exists head nows final tail,
    trace s = head ++ map (frameAct P t0) (nows ++ final) ++ tail /\
    forallb (fun a => negb (is_frame a)) (head ++ tail) = true /\
    early t0 nows /\
    (final = [] /\ stage s <> Stopping /\ stage s <> Finished \/
     exists last, final = [last] /\ t0 + DURATION_MS <= last /\
                  (stage s = Stopping \/ stage s = Finished)).
Proof.
  intros [_ H]. destruct (stage s) eqn:Hst.
  - destruct H as (_ & _ & nows & Htr & He).
    exists (opening P), nows, [], []. rewrite !app_nil_r.
    repeat split; try assumption. left. repeat split; discriminate.
  - destruct H as (_ & _ & nows & now & e & Htr & He).
    exists (opening P), nows, [], [act_frameThrew now e]. rewrite app_nil_r.
    repeat split; try assumption. left. repeat split; discriminate.
  - destruct H as (_ & _ & nows & last & Htr & He & Hl).
    exists (opening P), nows, [last], [act_stop].
    repeat split; try assumption. right. exists last. tauto.
  - destruct H as (nows & last & b & Htr & He & Hl & _).
    exists (opening P), nows, [last], [act_stop; act_createObjectURL b].
    repeat split; try assumption. right. exists last. tauto.
  - destruct H as (_ & _ & _ & [Htr | Htr]).
    + exists (firstn 2 (opening P)), [], [], [].
      repeat split; try assumption; [constructor |].
      left. repeat split; discriminate.
    + exists (opening P), [], [], []. rewrite app_nil_r.
      repeat split; try assumption; [constructor |].
      left. repeat split; discriminate.
Qed.

Lemma frame_times_noframes (tr : list Action) :
  forallb (fun a => negb (is_frame a)) tr = true -> frame_times tr = [].
Proof.
  induction tr as [| a tr IH]; [reflexivity |].
  cbn [forallb]. rewrite andb_true_iff. intros [Ha Htr].
  destruct a; try discriminate Ha; cbn; exact (IH Htr).
Qed.

Lemma in_noframes (tr : list Action) (now : Q) (calls : list Call) :
  forallb (fun a => negb (is_frame a)) tr = true ->
  ~ In (act_frame now calls) tr.
Proof.
  rewrite forallb_forall. intros H Hin. specialize (H _ Hin). discriminate.
Qed.

Lemma frame_late (P : Platform) (cv : Canvas) (start now : Q) :
  15000 < now - start ->
  frame P cv start now =
  (ctx_clearRect 0 0 (width cv) (height cv) :: drawBackground cv, Resolve).
Proof.
  intros H. unfold frame.
  rewrite (proj1 (phaseOf_none (now - start)) H), app_nil_r.
  assert ((now <? start + DURATION_MS) = false) as ->
    by (apply Qltb_ge; unfold DURATION_MS; lra).
  reflexivity.
Qed.

(** C2, as the code has it.  The driver tests for the end of the timeline
    only after the frame is drawn.  Every frame in the trace of a run was
    drawn by [frame] at its timestamp.  The frames of a run are those of
    timestamps strictly inside the timeline followed, once the animation is
    over, by exactly one frame whose elapsed time is 15000 ms or more: that
    one is drawn too, and it is the last.  A frame later than 15000 ms
    clears the surface and paints the background and nothing else, and then
    resolves instead of asking for another frame. *)
Theorem late_frame_is_drawn (P : Platform) (t0 : Q) (c : Component)
  (evs : list EnvEvent) :
  let s := run P t0 c evs in
  (forall now calls, In (act_frame now calls) (trace s) ->
     calls = fst (frame P canvas t0 now) /\
     (15000 < now - t0 ->
      calls = ctx_clearRect 0 0 (width canvas) (height canvas)
                :: drawBackground canvas)) /\
  (exists nows final,
     frame_times (trace s) = nows ++ final /\
     Forall (fun now => now - t0 < 15000) nows /\
     (final = [] /\ stage s <> Stopping /\ stage s <> Finished \/
      exists last, final = [last] /\ 15000 <= last - t0 /\
                   (stage s = Stopping \/ stage s = Finished))) /\
  (forall cv start now, 15000 < now - start ->
     frame P cv start now =
     (ctx_clearRect 0 0 (width cv) (height cv) :: drawBackground cv,
      Resolve)).
Proof.
  intros s.
  destruct (shape_frames P t0 s (run_shape P t0 c evs))
    as (head & nows & final & tail & Htr & Hno & He & Hfinal).
  rewrite forallb_app, andb_true_iff in Hno. destruct Hno as [Hhead Htail].
  split; [| split].
  - intros now calls Hin. rewrite Htr in Hin.
    apply in_app_or in Hin. destruct Hin as [Hin | Hin];
      [exfalso; exact (in_noframes _ _ _ Hhead Hin) |].
    apply in_app_or in Hin. destruct Hin as [Hin | Hin];
      [| exfalso; exact (in_noframes _ _ _ Htail Hin)].
    apply in_frames in Hin. destruct Hin as [_ ->].
    split; [reflexivity |]. intros Hlate.
    rewrite (frame_late P canvas t0 now Hlate). reflexivity.
  - exists nows, final. split; [| split].
    + rewrite Htr, !frame_times_app, frame_times_frames.
      rewrite (frame_times_noframes _ Hhead), (frame_times_noframes _ Htail).
      rewrite app_nil_r. reflexivity.
    + unfold early in He. rewrite Forall_forall in He |- *.
      intros now Hin. specialize (He now Hin). cbv beta in He.
      unfold DURATION_MS in He. lra.
    + destruct Hfinal as [Hf | (last & Hf & Hl & Hst)]; [left; exact Hf |].
      right. exists last. repeat split; try assumption.
      unfold DURATION_MS in Hl. lra.
  - apply frame_late.
Qed.

Lemma late_frame_is_drawn_witness :
  15000 < 15016 - 0 /\
  frame bare canvas 0 15016 =
  (ctx_clearRect 0 0 (width canvas) (height canvas) :: drawBackground canvas,
   Resolve).
Proof.
  split; [reflexivity |].
  apply (late_frame_is_drawn bare 0 initial []). reflexivity.
Defined.

(** C2, as stated, fails: a frame callback that reads a timestamp 15016 ms
    after the start is run; seven calls are issued on the context for it
    (the clear and the background), and only then is the recorder
    stopped. *)
Lemma frame_beyond_end_is_drawn :
  15000 < 15016 - 0 /\
  trace (run bare 0 initial [AnimationFrame 16 None;
                             AnimationFrame 15016 None]) =
    opening bare
    ++ [ act_frame 16 (fst (frame bare canvas 0 16));
         act_frame 15016
           (ctx_clearRect 0 0 (width canvas) (height canvas)
              :: drawBackground canvas);
         act_stop ] /\
  List.length (ctx_clearRect 0 0 (width canvas) (height canvas)
                 :: drawBackground canvas) = 7%nat.
Proof.
  repeat split; reflexivity.
Qed.

(** ** Stages that are never left *)

Lemma step_failed (P : Platform) (s : RunState) (ev : EnvEvent) :
  stage s = Failed -> step P s ev = s.
Proof.
  intros H. unfold step. rewrite H. destruct ev as [now [e |] | data |];
    reflexivity.
Qed.

Lemma step_finished (P : Platform) (s : RunState) (ev : EnvEvent) :
  stage s = Finished -> step P s ev = s.
Proof.
  intros H. unfold step. rewrite H. destruct ev as [now [e |] | data |];
    reflexivity.
Qed.

Lemma step_hung (P : Platform) (s : RunState) (ev : EnvEvent) :
  stage s = Hung -> stage (step P s ev) = Hung.
Proof.
  intros H. unfold step. rewrite H. destruct ev as [now [e |] | data |];
    exact H.
Qed.

Lemma fold_failed (P : Platform) (evs : list EnvEvent) (s : RunState) :
  stage s = Failed -> fold_left (step P) evs s = s.
Proof.
  induction evs as [| ev evs IH]; intros H; [reflexivity |].
  cbn. rewrite (step_failed P s ev H). exact (IH H).
Qed.

Lemma fold_finished (P : Platform) (evs : list EnvEvent) (s : RunState) :
  stage s = Finished -> fold_left (step P) evs s = s.
Proof.
  induction evs as [| ev evs IH]; intros H; [reflexivity |].
  cbn. rewrite (step_finished P s ev H). exact (IH H).
Qed.

Lemma fold_hung (P : Platform) (evs : list EnvEvent) (s : RunState) :
  stage s = Hung -> stage (fold_left (step P) evs s) = Hung.
Proof.
  revert s. induction evs as [| ev evs IH]; intros s H; [exact H |].
  cbn. apply IH, step_hung, H.
Qed.

Lemma existsb_frames (P : Platform) (t0 : Q) (f : Action -> bool)
  (nows : list Q) :
  (forall now calls, f (act_frame now calls) = false) ->
  existsb f (map (frameAct P t0) nows) = false.
Proof.
  intros Hf. induction nows as [| now nows IH]; [reflexivity |].
  cbn. unfold frameAct at 1. rewrite Hf. exact IH.
Qed.

(** The recorder is not stopped before the animation is over. *)
Lemma shape_no_stop (P : Platform) (t0 : Q) (s : RunState) :
  Shape P t0 s ->
  stage s = Animating \/ stage s = Hung \/ stage s = Failed ->
  existsb is_stop (trace s) = false.
Proof.
  intros [_ H] Hst. destruct (stage s) eqn:E;
    try (destruct Hst as [Hst | [Hst | Hst]]; discriminate Hst).
  - destruct H as (_ & _ & nows & -> & _).
    rewrite existsb_app, existsb_frames by reflexivity. reflexivity.
  - destruct H as (_ & _ & nows & now & e & -> & _).
    rewrite !existsb_app, existsb_frames by reflexivity. reflexivity.
  - destruct H as (_ & _ & _ & [-> | ->]); reflexivity.
Qed.

Lemma shape_artifact (P : Platform) (t0 : Q) (s : RunState) :
  Shape P t0 s -> (artifact s <> None <-> stage s = Finished).
Proof.
  intros [_ H]. unfold artifact. destruct (stage s) eqn:E.
  - destruct H as (_ & (_ & _ & ->) & _). split; congruence.
  - destruct H as (_ & (_ & _ & ->) & _). split; congruence.
  - destruct H as (_ & (_ & _ & ->) & _). split; congruence.
  - destruct H as (nows & last & b & _ & _ & _ & _ & _ & ->).
    split; congruence.
  - destruct H as (_ & _ & -> & _). split; congruence.
Qed.

(** C6. In a run that finished, the trace is: the capture stream and the
    recorder are created, the chunk buffer is reset, the recorder is
    started; then come all the frames, of which there is at least one, every
    one but the last asking for the next and the last resolving the promise
    of [playAnimation]; then the recorder is stopped and the artifact is
    made.  So the one [start()] precedes every frame and the one [stop()]
    follows every frame. *)
Theorem encoder_brackets_animation (P : Platform) (t0 : Q) (c : Component)
  (evs : list EnvEvent) :
  let s := run P t0 c evs in
  stage s = Finished ->
  exists nows last b,
    trace s =
      [ act_captureStream 30;
        act_newMediaRecorder (getSupportedMimeType P) 6000000;
        act_resetChunks ]
      ++ act_start :: map (frameAct P t0) (nows ++ [last])
      ++ [act_stop; act_createObjectURL b] /\
    Forall (fun now => snd (frame P canvas t0 now) = Reschedule) nows /\
    snd (frame P canvas t0 last) = Resolve /\
    filter is_frame (trace s) = map (frameAct P t0) (nows ++ [last]) /\
    filter is_start (trace s) = [act_start] /\
    filter is_stop (trace s) = [act_stop].
Proof.
  intros s Hst. destruct (run_shape P t0 c evs) as [_ H]. fold s in H.
  rewrite Hst in H.
  destruct H as (nows & last & b & Htr & He & Hl & _).
  exists nows, last, b. split; [exact Htr |]. split; [| split].
  - unfold early in He. rewrite Forall_forall in He |- *. intros now Hin.
    destruct (frame_next P t0 now) as [[H _] | [_ H]]; [exact H |].
    specialize (He now Hin). cbv beta in He. lra.
  - destruct (frame_next P t0 last) as [[_ H] | [H _]]; [lra | exact H].
  - rewrite Htr. unfold opening. rewrite !filter_app.
    rewrite (filter_frames P t0 is_start), (filter_frames P t0 is_stop)
      by reflexivity.
    repeat split; cbn [filter is_frame is_start is_stop app];
      try reflexivity.
    rewrite app_nil_r. apply forallb_filter_id, forallb_frames.
Qed.

Lemma encoder_brackets_animation_witness :
  stage (run bare 0 initial short_run) = Finished /\
  exists nows last b,
    trace (run bare 0 initial short_run) =
      [ act_captureStream 30;
        act_newMediaRecorder (getSupportedMimeType bare) 6000000;
        act_resetChunks ]
      ++ act_start :: map (frameAct bare 0) (nows ++ [last])
      ++ [act_stop; act_createObjectURL b] /\
    Forall (fun now => snd (frame bare canvas 0 now) = Reschedule) nows /\
    snd (frame bare canvas 0 last) = Resolve /\
    filter is_frame (trace (run bare 0 initial short_run))
    = map (frameAct bare 0) (nows ++ [last]) /\
    filter is_start (trace (run bare 0 initial short_run)) = [act_start] /\
    filter is_stop (trace (run bare 0 initial short_run)) = [act_stop].
Proof.
  split; [reflexivity |].
  apply (encoder_brackets_animation bare 0 initial short_run). reflexivity.
Defined.

(** ** Failures *)

Lemma finished_no_throw (P : Platform) (t0 : Q) (s : RunState) :
  Shape P t0 s -> stage s = Finished ->
  forall now e, ~ In (act_frameThrew now e) (trace s).
Proof.
  intros [_ H] Hst now e Hin. rewrite Hst in H.
  destruct H as (nows & last & b & Htr & _). rewrite Htr in Hin.
  apply in_app_or in Hin. destruct Hin as [Hin | Hin].
  - cbn in Hin. repeat (destruct Hin as [Hin | Hin]; [discriminate |]).
    exact Hin.
  - apply in_app_or in Hin. destruct Hin as [Hin | Hin].
    + apply in_map_iff in Hin. destruct Hin as (n & Hn & _). discriminate.
    + cbn in Hin. repeat (destruct Hin as [Hin | Hin]; [discriminate |]).
      exact Hin.
Qed.

(** ** Unguarded handlers and the recorder's contract *)

Lemma step_rec (P : Platform) (s : RunState) (ev : EnvEvent) :
  rec (step P s ev) = rec s.
Proof.
  unfold step. destruct ev as [now [e |] | data |]; destruct (stage s);
    try reflexivity.
  - destruct (frame P canvas (clock s) now) as [calls [|]]; reflexivity.
  - destruct (rec s) eqn:E; [| exact E].
    unfold onstop. cbn [rec advance with_comp]. exact E.
Qed.

Lemma step_has_recorder (P : Platform) (s : RunState) (ev : EnvEvent) :
  (live (stage s) = true -> rec s <> None) ->
  live (stage (step P s ev)) = true -> rec (step P s ev) <> None.
Proof.
  intros H Hl. rewrite step_rec. apply H.
  destruct (stage s) eqn:E; try reflexivity.
  - rewrite (step_finished P s ev E), E in Hl. exact Hl.
  - rewrite (step_failed P s ev E), E in Hl. exact Hl.
Qed.

Lemma deliver_step (P : Platform) (s : RunState) (ev : EnvEvent) :
  (live (stage s) = true -> rec s <> None) ->
  expected (stage s) ev = true ->
  deliver P s ev = step P s ev.
Proof.
  intros Hrec Hexp. unfold deliver, step.
  destruct ev as [now [e |] | data |]; try reflexivity.
  - destruct (stage s); try discriminate Hexp;
      (destruct (rec s); [reflexivity | exfalso; exact (Hrec eq_refl eq_refl)]).
  - destruct (stage s); try discriminate Hexp. reflexivity.
Qed.

Lemma orderly_agree (P : Platform) (evs : list EnvEvent) (s : RunState) :
  (live (stage s) = true -> rec s <> None) ->
  orderlyFrom P s evs = true ->
  fold_left (deliver P) evs s = fold_left (step P) evs s.
Proof.
  revert s. induction evs as [| ev evs IH]; intros s Hrec Hord;
    [reflexivity |].
  cbn [orderlyFrom] in Hord. apply andb_true_iff in Hord.
  destruct Hord as [Hexp Hrest]. cbn [fold_left].
  rewrite (deliver_step P s ev Hrec Hexp) in Hrest |- *.
  apply IH; [apply step_has_recorder, Hrec | exact Hrest].
Qed.

Lemma start_has_recorder (P : Platform) (t0 : Q) (c : Component) :
  live (stage (start P t0 c)) = true -> rec (start P t0 c) <> None.
Proof.
  unfold start. destruct (MediaRecorder_new P _);
    [| destruct (MediaRecorder_start P)]; cbn; congruence.
Qed.

(** When the recorder keeps to its contract, the guards of [step] never
    apply: the unguarded handlers do what [step] does. *)
Lemma drive_run (P : Platform) (t0 : Q) (c : Component)
  (evs : list EnvEvent) :
  orderly P t0 c evs -> drive P t0 c evs = run P t0 c evs.
Proof.
  intros H. apply orderly_agree; [apply start_has_recorder | exact H].
Qed.

Lemma orderlyFrom_app (P : Platform) (evs evs' : list EnvEvent)
  (s : RunState) :
  orderlyFrom P s (evs ++ evs') =
  orderlyFrom P s evs && orderlyFrom P (fold_left (deliver P) evs s) evs'.
Proof.
  revert s. induction evs as [| ev evs IH]; intros s; [reflexivity |].
  cbn [app orderlyFrom fold_left]. rewrite IH, andb_assoc. reflexivity.
Qed.

Lemma orderly_prefix (P : Platform) (t0 : Q) (c : Component)
  (evs evs' : list EnvEvent) :
  orderly P t0 c (evs ++ evs') -> orderly P t0 c evs.
Proof.
  unfold orderly. rewrite orderlyFrom_app, andb_true_iff. tauto.
Qed.

(** Off the contract the two differ: a [stop] event that arrives after a
    frame threw runs [onstop], which makes an artifact and sets state
    "done", while the body of [start] is still suspended. *)
Example stop_outside_contract :
  orderlyFrom bare (start bare 0 initial) (thrown_run ++ [StopEvent])
  = false /\
  stage (drive bare 0 initial (thrown_run ++ [StopEvent])) = Hung /\
  recState (comp (drive bare 0 initial (thrown_run ++ [StopEvent]))) = Done /\
  artifact (drive bare 0 initial (thrown_run ++ [StopEvent]))
  = Some (new_Blob [sample_blob 3] "video/webm") /\
  recState (comp (run bare 0 initial (thrown_run ++ [StopEvent])))
  = Recording.
Proof. repeat split; reflexivity. Qed.

(** C5, as the code has it.  Let the recorder keep to its contract (it
    fires [stop] only after [rec.stop()] was called).  When a frame callback
    throws, [rec.stop()] is never called afterwards, whatever events follow,
    and no artifact is made; nor is [rec.stop()] called or an artifact made
    in a run that failed in [start]'s [try] block, where the [catch] block
    shows the message of what the constructor or [start()] threw.  An
    artifact exists exactly when the run finished, and in a finished run no
    frame threw and no error is shown. *)
Theorem failure_leaves_recorder (P : Platform) (t0 : Q) (c : Component)
  (evs : list EnvEvent) :
  orderly P t0 c evs ->
  let s := drive P t0 c evs in
  let mime := getSupportedMimeType P in
  (forall evs1 now e evs2,
     evs = evs1 ++ AnimationFrame now (Some e) :: evs2 ->
     stage (drive P t0 c evs1) = Animating ->
     stage s = Hung /\ existsb is_stop (trace s) = false /\
     artifact s = None) /\
  (forall e, MediaRecorder_new P mime = Some e ->
     stage s = Failed /\ error (comp s) = Some (shown e)) /\
  (forall e, MediaRecorder_new P mime = None ->
     MediaRecorder_start P = Some e ->
     stage s = Failed /\ error (comp s) = Some (shown e)) /\
  (stage s = Hung \/ stage s = Failed ->
     existsb is_stop (trace s) = false /\ artifact s = None) /\
  (artifact s <> None <-> stage s = Finished) /\
  (stage s = Finished ->
     recState (comp s) = Done /\ error (comp s) = None /\
     forall now e, ~ In (act_frameThrew now e) (trace s)).
Proof.
  intros Hord s mime.
  assert (s = run P t0 c evs) as Hs by (apply drive_run, Hord).
  pose proof (run_shape P t0 c evs) as Hshape. rewrite <- Hs in Hshape.
  assert (stage s = Hung \/ stage s = Failed ->
          existsb is_stop (trace s) = false /\ artifact s = None) as Hfail.
  { intros Hst. split.
    - apply (shape_no_stop P t0 s Hshape). tauto.
    - destruct (artifact s) eqn:E; [| reflexivity].
      assert (stage s = Finished) as Hf
        by (apply (shape_artifact P t0 s Hshape); congruence).
      destruct Hst as [Hst | Hst]; congruence. }
  split; [| split; [| split; [| split; [| split]]]].
  - intros evs1 now e evs2 Hevs Hst.
    assert (stage s = Hung) as Hhung.
    { rewrite Hs, Hevs, run_app. cbn [fold_left]. apply fold_hung.
      rewrite Hevs in Hord. apply orderly_prefix in Hord.
      rewrite (drive_run P t0 c evs1 Hord) in Hst.
      unfold step. rewrite Hst. reflexivity. }
    split; [exact Hhung |]. apply Hfail. left. exact Hhung.
  - intros e He. rewrite Hs. unfold run.
    assert (start P t0 c =
            {| comp := catch e (setBlobUrl None (setError None c));
               stage := Failed;
               trace := [ act_captureStream 30;
                          act_newMediaRecorder mime 6000000 ];
               rec := None; clock := t0 |}) as ->
      by (unfold start; fold mime; rewrite He; reflexivity).
    rewrite fold_failed by reflexivity. split; reflexivity.
  - intros e Hn He. rewrite Hs. unfold run, start. fold mime.
    rewrite Hn, He.
    rewrite fold_failed by reflexivity. split; reflexivity.
  - exact Hfail.
  - exact (shape_artifact P t0 s Hshape).
  - intros Hst. pose proof (finished_no_throw P t0 s Hshape Hst) as Hnt.
    destruct Hshape as [_ H]. rewrite Hst in H.
    destruct H as (nows & last & b & _ & _ & _ & H1 & H2 & _).
    split; [exact H1 |]. split; [exact H2 | exact Hnt].
Qed.

Lemma failure_leaves_recorder_witness :
  orderly bare 0 initial thrown_run /\
  stage (drive bare 0 initial []) = Animating /\
  stage (drive bare 0 initial thrown_run) = Hung /\
  existsb is_stop (trace (drive bare 0 initial thrown_run)) = false /\
  artifact (drive bare 0 initial thrown_run) = None.
Proof.
  assert (orderly bare 0 initial thrown_run) as Hord by reflexivity.
  pose proof (failure_leaves_recorder bare 0 initial thrown_run Hord) as H.
  cbv zeta in H. destruct H as (Hthrow & _).
  split; [exact Hord |]. split; [reflexivity |].
  exact (Hthrow [] 16 type_error _ eq_refl eq_refl).
Defined.

(** C5, as stated, fails: here the first frame throws and the recorder keeps
    to its contract.  The run does not end in an error (the component stays
    in state "recording" and shows none), and [stop()] is never called on
    the recorder: the trace ends with the frame that threw. *)
Lemma frame_error_not_propagated :
  orderly bare 0 initial thrown_run /\
  recState (comp (drive bare 0 initial thrown_run)) = Recording /\
  error (comp (drive bare 0 initial thrown_run)) = None /\
  trace (drive bare 0 initial thrown_run)
  = opening bare ++ [act_frameThrew 16 type_error] /\
  existsb is_stop (trace (drive bare 0 initial thrown_run)) = false.
Proof.
  repeat split; reflexivity.
Qed.

(** ** The chunk buffer *)

Lemma data_of_app (evs evs' : list EnvEvent) :
  data_of (evs ++ evs') = data_of evs ++ data_of evs'.
Proof. unfold data_of. apply flat_map_app. Qed.

Lemma ondataavailable_chunks (data : Blob) (c : Component) :
  chunksRef (ondataavailable data c)
  = chunksRef c ++ filter nonEmpty [data].
Proof.
  unfold ondataavailable, nonEmpty. cbn [filter].
  destruct (Nat.eqb (size data) 0); cbn; [rewrite app_nil_r |]; reflexivity.
Qed.

Lemma bytes_nonEmpty (l : list Blob) :
  List.concat (map bytes (filter nonEmpty l)) = List.concat (map bytes l).
Proof.
  induction l as [| b l IH]; [reflexivity |].
  cbn [filter map List.concat]. unfold nonEmpty at 1, size.
  destruct (bytes b) eqn:E; cbn [List.length Nat.eqb negb].
  - exact IH.
  - cbn [map List.concat]. rewrite E, IH. reflexivity.
Qed.

Lemma step_live (P : Platform) (s : RunState) (ev : EnvEvent) :
  live (stage (step P s ev)) = true -> live (stage s) = true.
Proof.
  destruct (stage s) eqn:E; try reflexivity.
  - rewrite (step_finished P s ev E), E. trivial.
  - rewrite (step_failed P s ev E), E. trivial.
Qed.

Lemma step_chunks (P : Platform) (s : RunState) (ev : EnvEvent) :
  live (stage (step P s ev)) = true ->
  chunksRef (comp (step P s ev))
  = chunksRef (comp s) ++ filter nonEmpty (data_of [ev]).
Proof.
  unfold step.
  destruct ev as [now [e |] | data |]; destruct (stage s) eqn:E;
    cbn [data_of flat_map app filter]; intros Hl;
    try (rewrite app_nil_r; reflexivity);
    try apply ondataavailable_chunks;
    try (rewrite E in Hl; discriminate Hl).
  - destruct (frame P canvas (clock s) now) as [calls [|]];
      rewrite app_nil_r; reflexivity.
  - destruct (rec s); [discriminate Hl | rewrite app_nil_r; reflexivity].
Qed.

(** While the recorder can deliver data, the buffer holds the non-empty
    fragments delivered since [start], in order of arrival. *)
Lemma run_chunks (P : Platform) (t0 : Q) (c : Component)
  (evs : list EnvEvent) :
  live (stage (run P t0 c evs)) = true ->
  chunksRef (comp (run P t0 c evs)) = filter nonEmpty (data_of evs).
Proof.
  induction evs as [| ev evs IH] using rev_ind.
  - unfold run, start. cbn [fold_left].
    destruct (MediaRecorder_new P _); [discriminate |].
    destruct (MediaRecorder_start P); [discriminate | reflexivity].
  - rewrite run_snoc. intros Hl.
    rewrite (step_chunks P _ ev Hl), (IH (step_live P _ ev Hl)).
    rewrite data_of_app, filter_app. reflexivity.
Qed.

Lemma start_not_finished (P : Platform) (t0 : Q) (c : Component) :
  stage (start P t0 c) <> Finished.
Proof.
  unfold start. destruct (MediaRecorder_new P _);
    [| destruct (MediaRecorder_start P)]; discriminate.
Qed.

Lemma step_to_finished (P : Platform) (s : RunState) (ev : EnvEvent) :
  stage (step P s ev) = Finished -> stage s <> Finished ->
  stage s = Stopping /\ ev = StopEvent.
Proof.
  unfold step.
  destruct ev as [now [e |] | data |]; destruct (stage s) eqn:E;
    intros H Hn; try (split; reflexivity);
    try (cbn in H; congruence).
  destruct (frame P canvas (clock s) now) as [calls [|]]; discriminate H.
Qed.

(** A finished run was finished by a stop event that arrived while the
    recorder was stopping. *)
Lemma run_finished (P : Platform) (t0 : Q) (c : Component)
  (evs : list EnvEvent) :
  stage (run P t0 c evs) = Finished ->
  exists evs1 evs2,
    evs = evs1 ++ StopEvent :: evs2 /\
    stage (run P t0 c evs1) = Stopping /\
    run P t0 c evs = step P (run P t0 c evs1) StopEvent.
Proof.
  induction evs as [| ev evs IH] using rev_ind.
  - intros H. exfalso. exact (start_not_finished P t0 c H).
  - rewrite run_snoc. intros H.
    destruct (stage (run P t0 c evs)) eqn:E;
      try (destruct (step_to_finished P _ ev H) as [Hs _];
           [congruence | congruence]).
    + destruct (step_to_finished P _ ev H) as [_ ->]; [congruence |].
      exists evs, []. repeat split. exact E.
    + destruct (IH eq_refl) as (evs1 & evs2 & -> & Hst & Hrun).
      exists evs1, (evs2 ++ [ev]).
      rewrite <- app_assoc. split; [reflexivity |]. split; [exact Hst |].
      rewrite (step_finished P _ ev E). exact Hrun.
Qed.

Lemma stop_event (P : Platform) (t0 : Q) (s : RunState) :
  Shape P t0 s -> stage s = Stopping ->
  stage (step P s StopEvent) = Finished /\
  artifact (step P s StopEvent)
  = Some (new_Blob (chunksRef (comp s)) (getSupportedMimeType P)).
Proof.
  intros [_ H] Hst. rewrite Hst in H. destruct H as (Hrec & _).
  unfold step. rewrite Hst, Hrec. split; reflexivity.
Qed.

(** The artifact of a finished run: the fragments delivered up to the stop
    event, concatenated in order of arrival, tagged with the selected
    type. *)
Lemma finished_artifact (P : Platform) (t0 : Q) (c : Component)
  (evs : list EnvEvent) :
  stage (run P t0 c evs) = Finished ->
  exists evs1 evs2 b,
    evs = evs1 ++ StopEvent :: evs2 /\
    stage (run P t0 c evs1) = Stopping /\
    artifact (run P t0 c evs) = Some b /\
    b = new_Blob (filter nonEmpty (data_of evs1)) (getSupportedMimeType P) /\
    bytes b = List.concat (map bytes (data_of evs1)).
Proof.
  intros H.
  destruct (run_finished P t0 c evs H) as (evs1 & evs2 & E & Hst & Hrun).
  destruct (stop_event P t0 _ (run_shape P t0 c evs1) Hst) as [_ Hart].
  rewrite run_chunks in Hart by (rewrite Hst; reflexivity).
  exists evs1, evs2, (new_Blob (filter nonEmpty (data_of evs1))
                       (getSupportedMimeType P)).
  split; [exact E |]. split; [exact Hst |].
  split; [rewrite Hrun; exact Hart |]. split; [reflexivity |].
  apply bytes_nonEmpty.
Qed.

(** C7. The data handler appends a fragment to the buffer when its size is
    not 0 and leaves the buffer alone when it is; while the recorder can
    deliver data the buffer holds the non-empty fragments delivered so far,
    in arrival order; and the artifact of a finished run is the blob of the
    buffer as it stood at the stop event, so its bytes are the bytes of the
    fragments delivered until then, concatenated in arrival order: for
    fragments [c1; c2; c3], the bytes of [c1], then [c2], then [c3]. *)
Theorem fragments_concatenated_in_order (P : Platform) (t0 : Q)
  (c : Component) (evs : list EnvEvent) :
  let s := run P t0 c evs in
  (forall data c0,
     chunksRef (ondataavailable data c0) =
     if Nat.eqb (size data) 0 then chunksRef c0
     else chunksRef c0 ++ [data]) /\
  (live (stage s) = true ->
   chunksRef (comp s) = filter nonEmpty (data_of evs)) /\
  (stage s = Finished ->
   exists evs1 evs2 b,
     evs = evs1 ++ StopEvent :: evs2 /\
     stage (run P t0 c evs1) = Stopping /\
     artifact s = Some b /\
     b = new_Blob (chunksRef (comp (run P t0 c evs1)))
           (getSupportedMimeType P) /\
     bytes b = List.concat (map bytes (data_of evs1)) /\
     (forall c1 c2 c3, data_of evs1 = [c1; c2; c3] ->
        bytes b = bytes c1 ++ bytes c2 ++ bytes c3)).
Proof.
  intros s. split; [| split].
  - intros data c0. unfold ondataavailable.
    destruct (Nat.eqb (size data) 0); reflexivity.
  - apply run_chunks.
  - intros H.
    destruct (finished_artifact P t0 c evs H)
      as (evs1 & evs2 & b & E & Hst & Hart & Hb & Hbytes).
    exists evs1, evs2, b. split; [exact E |]. split; [exact Hst |].
    split; [exact Hart |]. split; [| split; [exact Hbytes |]].
    + rewrite run_chunks by (rewrite Hst; reflexivity). exact Hb.
    + intros c1 c2 c3 Hd. rewrite Hbytes, Hd. cbn.
      rewrite app_nil_r. reflexivity.
Qed.

Lemma fragments_concatenated_in_order_witness :
  stage (run bare 0 initial chunked_run) = Finished /\
  exists evs1 evs2 b,
    chunked_run = evs1 ++ StopEvent :: evs2 /\
    stage (run bare 0 initial evs1) = Stopping /\
    artifact (run bare 0 initial chunked_run) = Some b /\
    b = new_Blob (chunksRef (comp (run bare 0 initial evs1)))
          (getSupportedMimeType bare) /\
    bytes b = List.concat (map bytes (data_of evs1)) /\
    (forall c1 c2 c3, data_of evs1 = [c1; c2; c3] ->
       bytes b = bytes c1 ++ bytes c2 ++ bytes c3).
Proof.
  split; [reflexivity |].
  apply (fragments_concatenated_in_order bare 0 initial chunked_run).
  reflexivity.
Defined.

(** ** One run after another *)

Lemma start_fresh (P : Platform) (t0 : Q) (c c' : Component) :
  MediaRecorder_new P (getSupportedMimeType P) = None ->
  start P t0 c = start P t0 c'.
Proof.
  intros H. unfold start. rewrite H.
  destruct (MediaRecorder_start P); reflexivity.
Qed.

Lemma run_artifact_fresh (P : Platform) (t0 : Q) (c c' : Component)
  (evs : list EnvEvent) :
  artifact (run P t0 c' evs) = artifact (run P t0 c evs).
Proof.
  destruct (MediaRecorder_new P (getSupportedMimeType P)) as [e |] eqn:E.
  - unfold run, start. rewrite E. rewrite !fold_failed by reflexivity.
    reflexivity.
  - unfold run. rewrite (start_fresh P t0 c' c E). reflexivity.
Qed.

Lemma shape_opening (P : Platform) (t0 : Q) (s : RunState) :
  Shape P t0 s ->
  trace s = firstn 2 (opening P) \/ exists rest, trace s = opening P ++ rest.
Proof.
  intros [_ H]. destruct (stage s).
  - destruct H as (_ & _ & nows & -> & _). right. eauto.
  - destruct H as (_ & _ & nows & now & e & -> & _). right. eauto.
  - destruct H as (_ & _ & nows & last & -> & _). right. eauto.
  - destruct H as (nows & last & b & -> & _). right. eauto.
  - destruct H as (_ & _ & _ & [-> | ->]); [left; reflexivity |].
    right. exists []. rewrite app_nil_r. reflexivity.
Qed.

(** C10. In every run in which the recorder is started, the buffer is reset
    just before: the trace begins with the creation of the stream and of the
    recorder, the reset and then [start()], and the buffer is empty when the
    animation begins.  The artifact of a run does not depend on the
    component the run started from, so nothing a previous run left in the
    buffer (or anywhere else) shows in it: the artifact of a finished run is
    the blob of the non-empty fragments delivered during this run up to its
    stop event. *)
Theorem buffer_reset_before_start (P : Platform) (t0 : Q)
  (c c' : Component) (evs : list EnvEvent) :
  let s := run P t0 c evs in
  (existsb is_start (trace s) = true ->
   exists rest,
     trace s =
       [ act_captureStream 30;
         act_newMediaRecorder (getSupportedMimeType P) 6000000;
         act_resetChunks; act_start ] ++ rest) /\
  (stage (start P t0 c) = Animating ->
   chunksRef (comp (start P t0 c)) = []) /\
  artifact (run P t0 c' evs) = artifact s /\
  (stage s = Finished ->
   exists evs1 evs2 b,
     evs = evs1 ++ StopEvent :: evs2 /\
     artifact s = Some b /\
     b = new_Blob (filter nonEmpty (data_of evs1)) (getSupportedMimeType P) /\
     bytes b = List.concat (map bytes (data_of evs1))).
Proof.
  intros s. split; [| split; [| split]].
  - intros H.
    destruct (shape_opening P t0 s (run_shape P t0 c evs)) as [E | E].
    + rewrite E in H. discriminate H.
    + exact E.
  - unfold start. destruct (MediaRecorder_new P _); [discriminate |].
    destruct (MediaRecorder_start P); [discriminate | reflexivity].
  - apply run_artifact_fresh.
  - intros H.
    destruct (finished_artifact P t0 c evs H)
      as (evs1 & evs2 & b & E & _ & Hart & Hb & Hbytes).
    exists evs1, evs2, b. tauto.
Qed.

Lemma buffer_reset_before_start_witness :
  (recState stale = Error /\
   chunksRef stale = [sample_blob 2; sample_blob 1; sample_blob 3]) /\
  stage (run bare 30000 stale
           [AnimationFrame 45000 None; DataAvailable (sample_blob 5);
            StopEvent]) = Finished /\
  artifact (run bare 30000 initial
              [AnimationFrame 45000 None; DataAvailable (sample_blob 5);
               StopEvent])
  = artifact (run bare 30000 stale
                [AnimationFrame 45000 None; DataAvailable (sample_blob 5);
                 StopEvent]) /\
  exists evs1 evs2 b,
    [AnimationFrame 45000 None; DataAvailable (sample_blob 5); StopEvent]
    = evs1 ++ StopEvent :: evs2 /\
    artifact (run bare 30000 stale
                [AnimationFrame 45000 None; DataAvailable (sample_blob 5);
                 StopEvent]) = Some b /\
    b = new_Blob (filter nonEmpty (data_of evs1))
          (getSupportedMimeType bare) /\
    bytes b = List.concat (map bytes (data_of evs1)).
Proof.
  pose proof (buffer_reset_before_start bare 30000 stale initial
                [AnimationFrame 45000 None; DataAvailable (sample_blob 5);
                 StopEvent]) as H.
  cbv zeta in H. destruct H as (_ & _ & Hfresh & Hfin).
  split; [split; reflexivity |]. split; [reflexivity |].
  split; [exact Hfresh |]. apply Hfin. reflexivity.
Defined.

(** * Further properties of the code *)

(** ** Where the confetti falls *)

Lemma rng_range (P : Platform) (seed : Q) : 0 <= rng P seed /\ rng P seed < 1.
Proof.
  unfold rng, Math_floor. cbv zeta.
  pose proof (Qfloor_le (Math_sin P seed * 10000)) as Hlo.
  pose proof (Qlt_floor (Math_sin P seed * 10000)) as Hhi.
  rewrite inject_Z_plus in Hhi. change (inject_Z 1) with 1 in Hhi.
  split; lra.
Qed.

Lemma particle_range (P : Platform) (now : Q) (cv : Canvas) (i : nat) :
  0 < width cv -> 0 < height cv ->
  let p := particle P now cv i in
  (0 <= p_x p /\ p_x p < width cv) /\
  (height cv * 0.2 <= p_y p /\ p_y p < height cv * 0.8) /\
  (6 <= p_size p /\ p_size p < 20) /\
  (20 <= p_hue p /\ p_hue p < 60).
Proof.
  intros HW HH. unfold particle. cbv zeta. cbn [p_x p_y p_size p_hue].
  set (seed := num i * 123.456 + now * 0.002).
  destruct (rng_range P seed) as [H0 H1].
  destruct (rng_range P (seed + 1.23)) as [H0y H1y].
  destruct (rng_range P (seed + 2.34)) as [H0s H1s].
  destruct (rng_range P (seed + 3.45)) as [H0h H1h].
  repeat split; nra.
Qed.

(** The pseudo-random number of [drawConfetti] lies between 0 and 1
    whatever [Math.sin] returns, so on a canvas of positive size every one
    of the 80 particles has its left edge within the width of the canvas,
    its top edge in the band from 20% to 80% of the height, a size from 6 to
    20 and a hue from 20 to 60 (all bounds included). *)
Theorem confetti_in_bounds (P : Platform) (now : Q) (cv : Canvas) :
  0 < width cv -> 0 < height cv ->
  Forall (fun p =>
            (0 <= p_x p /\ p_x p <= width cv) /\
            (height cv * 0.2 <= p_y p /\ p_y p <= height cv * 0.8) /\
            (6 <= p_size p /\ p_size p <= 20) /\
            (20 <= p_hue p /\ p_hue p <= 60))
         (layoutOf (drawConfetti P now cv)).
Proof.
  intros HW HH. rewrite drawConfetti_layout. apply Forall_forall.
  intros p Hin. apply in_map_iff in Hin. destruct Hin as (i & <- & _).
  pose proof (particle_range P now cv i HW HH) as H. cbv zeta in H.
  destruct H as ((H1 & H2) & (H3 & H4) & (H5 & H6) & (H7 & H8)).
  repeat split; try assumption; apply Qlt_le_weak; assumption.
Qed.

Lemma confetti_in_bounds_witness :
  (0 < width canvas /\ 0 < height canvas) /\
  Forall (fun p =>
            (0 <= p_x p /\ p_x p <= width canvas) /\
            (height canvas * 0.2 <= p_y p /\ p_y p <= height canvas * 0.8) /\
            (6 <= p_size p /\ p_size p <= 20) /\
            (20 <= p_hue p /\ p_hue p <= 60))
         (layoutOf (drawConfetti bare 13000 canvas)).
Proof.
  split; [split; reflexivity |].
  apply (confetti_in_bounds bare 13000 canvas); reflexivity.
Defined.

(** ** How the device moves during Install *)

Lemma local_nonneg (ms : Q) : 3000 <= ms -> 0 <= (ms - 3000) / 5000.
Proof.
  intros H. unfold Qdiv. apply Qmult_le_0_compat; [lra | discriminate].
Qed.

Lemma local_mono (ms1 ms2 : Q) :
  ms1 <= ms2 -> (ms1 - 3000) / 5000 <= (ms2 - 3000) / 5000.
Proof.
  intros H. unfold Qdiv. apply Qmult_le_compat_r; [lra | discriminate].
Qed.

Lemma deviceX_eased (cv : Canvas) (ms : Q) :
  3000 <= ms ->
  0 <= ease (Math_min 1 ((ms - 3000) / 5000)) /\
  ease (Math_min 1 ((ms - 3000) / 5000)) <= 1.
Proof.
  intros H. pose proof (local_nonneg ms H) as Hl. unfold Math_min.
  assert (0 <= Qmin 1 ((ms - 3000) / 5000)) as H0
    by (apply Q.min_glb; [discriminate | exact Hl]).
  pose proof (Q.le_min_l 1 ((ms - 3000) / 5000)) as H1.
  split.
  - setoid_replace 0 with (ease 0) by reflexivity.
    apply ease_mono; [lra | exact H0 | exact H1].
  - setoid_replace 1 with (ease 1) at 2 by reflexivity.
    apply ease_mono; [exact H0 | exact H1 | lra].
Qed.

Lemma deviceX_mono (cv : Canvas) (ms1 ms2 : Q) :
  0 <= width cv -> 3000 <= ms1 -> ms1 <= ms2 ->
  deviceX cv ms1 <= deviceX cv ms2.
Proof.
  intros HW H1 H12. unfold deviceX, lerp. cbv zeta.
  assert (ease (Math_min 1 ((ms1 - 3000) / 5000))
          <= ease (Math_min 1 ((ms2 - 3000) / 5000))) as He.
  { unfold Math_min. apply ease_mono.
    - apply Q.min_glb; [discriminate | apply local_nonneg, H1].
    - apply Q.min_le_compat_l, local_mono, H12.
    - apply Q.le_min_l. }
  nra.
Qed.

Lemma deviceX_from (cv : Canvas) (ms : Q) :
  0 <= width cv -> 3000 <= ms -> width cv * 0.2 <= deviceX cv ms.
Proof.
  intros HW H. destruct (deviceX_eased cv ms H) as [H0 _].
  unfold deviceX, lerp. cbv zeta. nra.
Qed.

Lemma deviceX_start (cv : Canvas) : deviceX cv 3000 == width cv * 0.2.
Proof.
  unfold deviceX, lerp. cbv zeta.
  setoid_replace (ease (Math_min 1 ((3000 - 3000) / 5000))) with 0
    by reflexivity.
  ring.
Qed.

(** During the Install window the device never moves backwards: of two
    frames of one run, the later one draws the device at the same place or
    further right; the device starts at 20% of the width when 3000 ms have
    elapsed and is never drawn left of that. *)
Theorem device_moves_forward (P : Platform) (cv : Canvas)
  (start now1 now2 : Q) :
  0 <= width cv ->
  3000 <= now1 - start -> now1 <= now2 -> now2 - start < 8000 ->
  exists x1 x2,
    devicePosition (fst (frame P cv start now1)) = Some x1 /\
    devicePosition (fst (frame P cv start now2)) = Some x2 /\
    width cv * 0.2 <= x1 /\ x1 <= x2 /\
    (now1 - start == 3000 -> x1 == width cv * 0.2).
Proof.
  intros HW H1 H12 H2.
  exists (deviceX cv (now1 - start)), (deviceX cv (now2 - start)).
  split; [apply frame_install, phaseOf_install; lra |].
  split; [apply frame_install, phaseOf_install; lra |].
  split; [apply deviceX_from; assumption |].
  split; [apply deviceX_mono; lra |].
  intros E. rewrite <- deviceX_start. apply Qle_antisym.
  - apply deviceX_mono; lra.
  - apply deviceX_mono; lra.
Qed.

Lemma device_moves_forward_witness :
  (0 <= width canvas /\ 3000 <= 3000 - 0 /\ 3000 <= 6000 /\
   6000 - 0 < 8000) /\
  exists x1 x2,
    devicePosition (fst (frame bare canvas 0 3000)) = Some x1 /\
    devicePosition (fst (frame bare canvas 0 6000)) = Some x2 /\
    width canvas * 0.2 <= x1 /\ x1 <= x2 /\
    (3000 - 0 == 3000 -> x1 == width canvas * 0.2).
Proof.
  split; [repeat split; reflexivity || discriminate |].
  apply (device_moves_forward bare canvas 0 3000 6000);
    reflexivity || discriminate.
Defined.

(** ** Scaling *)

Lemma scales_app (a b : list Call) : scales (a ++ b) = scales a ++ scales b.
Proof. unfold scales. apply flat_map_app. Qed.

Lemma scales_confetti (P : Platform) (now : Q) (cv : Canvas) :
  scales (drawConfetti P now cv) = [].
Proof.
  unfold drawConfetti. induction (seq 0 80) as [| i l IH]; [reflexivity |].
  cbn [flat_map]. rewrite scales_app, IH. reflexivity.
Qed.

(** On a browser whose [Math.sin] stays within [-1, 1], every [scale] call
    of every frame is uniform (the same factor on both axes) with a factor
    between 0.94 and 1.15: the house breathes within 3%, the shield pulses
    within 6%, the device shrinks from 1.15 to 1. *)
Theorem frame_scales_bounded (P : Platform) (cv : Canvas) (start now : Q) :
  (forall x, -1 <= Math_sin P x /\ Math_sin P x <= 1) ->
  Forall (fun s => fst s = snd s /\ 0.94 <= fst s /\ fst s <= 1.15)
         (scales (fst (frame P cv start now))).
Proof.
  intros Hsin. unfold frame. cbn [fst].
  destruct (phaseOf (now - start)) as [[] |] eqn:Hph;
    cbn [drawPhase drawBackground app scales flat_map].
  - destruct (Hsin (now / 400)) as [H0 H1].
    repeat constructor; cbn [fst snd]; lra.
  - destruct (phaseOf_install_inv _ Hph) as [H0 H1].
    pose proof (local_nonneg _ H0) as Hl0.
    pose proof (local_lt_1 _ H1) as Hl1.
    repeat constructor; cbn [fst snd]; lra.
  - destruct (Hsin (now / 300)) as [H0 H1].
    repeat constructor; cbn [fst snd]; lra.
  - fold (scales (drawConfetti P now cv)).
    rewrite scales_confetti. constructor.
  - constructor.
Qed.

Lemma frame_scales_bounded_witness :
  (forall x, -1 <= Math_sin bare x /\ Math_sin bare x <= 1) /\
  Forall (fun s => fst s = snd s /\ 0.94 <= fst s /\ fst s <= 1.15)
         (scales (fst (frame bare canvas 0 9000))).
Proof.
  assert (forall x, -1 <= Math_sin bare x /\ Math_sin bare x <= 1) as H
    by (intros x; split; discriminate).
  split; [exact H |].
  exact (frame_scales_bounded bare canvas 0 9000 H).
Defined.

(** ** Which format is selected *)

Lemma candidate_cases (Q0 : string -> Prop) :
  Q0 "video/webm;codecs=vp9"%string -> Q0 "video/webm;codecs=vp8"%string ->
  Q0 "video/webm"%string -> Q0 "video/mp4;codecs=h264"%string ->
  Q0 "video/mp4"%string ->
  forall u, In u candidates -> Q0 u.
Proof.
  intros H1 H2 H3 H4 H5 u Hin. unfold candidates in Hin. cbn [In] in Hin.
  destruct Hin as [<- | [<- | [<- | [<- | [<- | []]]]]]; assumption.
Qed.

Lemma getSupportedMimeType_cases (P : Platform) :
  let t := getSupportedMimeType P in
  In t candidates /\
  ((forall u, In u candidates -> isTypeSupported P u = false) \/
   isTypeSupported P t = true /\
   (is_webm t = false ->
    forall u, In u candidates -> is_webm u = true ->
              isTypeSupported P u = false)).
Proof.
  unfold getSupportedMimeType, candidates. cbn [firstSupported].
  destruct (isTypeSupported P "video/webm;codecs=vp9") eqn:E1;
    [cbn; split; [tauto |]; right; split; [exact E1 | discriminate] |].
  destruct (isTypeSupported P "video/webm;codecs=vp8") eqn:E2;
    [cbn; split; [tauto |]; right; split; [exact E2 | discriminate] |].
  destruct (isTypeSupported P "video/webm") eqn:E3;
    [cbn; split; [tauto |]; right; split; [exact E3 | discriminate] |].
  assert (forall u, In u candidates -> is_webm u = true ->
                    isTypeSupported P u = false) as Hwebm.
  { apply (candidate_cases
             (fun u => is_webm u = true -> isTypeSupported P u = false));
      intros H; try assumption; discriminate H. }
  destruct (isTypeSupported P "video/mp4;codecs=h264") eqn:E4;
    [cbn; split; [tauto |]; right; split; [exact E4 | intros _; exact Hwebm]
    |].
  destruct (isTypeSupported P "video/mp4") eqn:E5;
    [cbn; split; [tauto |]; right; split; [exact E5 | intros _; exact Hwebm]
    |].
  cbn. split; [tauto |]. left.
  apply (candidate_cases (fun u => isTypeSupported P u = false));
    assumption.
Qed.

(** [getSupportedMimeType] always returns one of its five candidates (the
    fallback is one of them).  The returned type is supported exactly when
    some candidate is; and an MP4 type is returned only when no WebM
    candidate is supported. *)
Theorem selected_type_is_candidate (P : Platform) :
  let t := getSupportedMimeType P in
  In t candidates /\
  (isTypeSupported P t = true <->
   exists u, In u candidates /\ isTypeSupported P u = true) /\
  (is_webm t = false ->
   isTypeSupported P t = true /\
   forall u, In u candidates -> is_webm u = true ->
             isTypeSupported P u = false).
Proof.
  intros t. destruct (getSupportedMimeType_cases P) as [Hin Hcases].
  fold t in Hin, Hcases. split; [exact Hin |]. split.
  - split.
    + intros H. exists t. split; assumption.
    + intros (u & Hu & Hs). destruct Hcases as [Hnone | [Ht _]].
      * rewrite (Hnone u Hu) in Hs. discriminate.
      * exact Ht.
  - intros Hw. destruct Hcases as [Hnone | [Ht Hweb]].
    + exfalso. subst t. unfold getSupportedMimeType in Hw.
      rewrite (proj2 (firstSupported_none P candidates) Hnone) in Hw.
      discriminate Hw.
    + split; [exact Ht | exact (Hweb Hw)].
Qed.

Lemma selected_type_is_candidate_witness :
  is_webm (getSupportedMimeType mp4_only) = false /\
  isTypeSupported mp4_only (getSupportedMimeType mp4_only) = true /\
  forall u, In u candidates -> is_webm u = true ->
            isTypeSupported mp4_only u = false.
Proof.
  split; [reflexivity |].
  apply (selected_type_is_candidate mp4_only). reflexivity.
Defined.

(** ** What the user sees *)


Lemma render_stage (P : Platform) (t0 : Q) (s : RunState) :
  Shape P t0 s ->
  let v := render (comp s) in
  button_disabled v = live (stage s) /\
  (button_label v = "Generating 15s video..."%string <->
   live (stage s) = true) /\
  (download_link v <> None <-> stage s = Finished) /\
  (error_line v <> None -> stage s = Failed) /\
  (download_link v = None \/ error_line v = None).
Proof.
  intros [_ H]. unfold render.
  cbn [button_disabled button_label download_link error_line].
  destruct (stage s) eqn:Hst.
  - destruct H as (_ & (H1 & H2 & H3) & _). rewrite H1, H2, H3. cbn.
    repeat split; try congruence; try tauto.
  - destruct H as (_ & (H1 & H2 & H3) & _). rewrite H1, H2, H3. cbn.
    repeat split; try congruence; try tauto.
  - destruct H as (_ & (H1 & H2 & H3) & _). rewrite H1, H2, H3. cbn.
    repeat split; try congruence; try tauto.
  - destruct H as (nows & last & b & _ & _ & _ & H1 & H2 & H3).
    rewrite H1, H2, H3. cbn.
    repeat split; try congruence; try tauto; try discriminate.
  - destruct H as (_ & H1 & H3 & _). rewrite H1, H3. cbn.
    repeat split; try congruence; try tauto; try discriminate.
Qed.



(** The download link of a finished run always offers the file under the
    name "gas-safety-video.webm", and the blob carries the selected type:
    on a browser that supports an MP4 candidate and no WebM candidate, the
    blob is MP4 while the link still names a [.webm] file. *)
Theorem download_named_webm (P : Platform) (t0 : Q) (c : Component)
  (evs : list EnvEvent) :
  stage (run P t0 c evs) = Finished ->
  exists b,
    download_link (render (comp (run P t0 c evs)))
    = Some (b, "gas-safety-video.webm"%string) /\
    type b = getSupportedMimeType P /\
    ((forall u, In u candidates -> is_webm u = true ->
                isTypeSupported P u = false) ->
     (exists u, In u candidates /\ isTypeSupported P u = true) ->
     type b = "video/mp4;codecs=h264"%string \/
     type b = "video/mp4"%string).
Proof.
  intros H.
  destruct (finished_artifact P t0 c evs H)
    as (evs1 & evs2 & b & _ & _ & Hart & Hb & _).
  exists b. unfold artifact in Hart. unfold render. cbn [download_link].
  rewrite Hart. split; [reflexivity |].
  assert (type b = getSupportedMimeType P) as Ht by (rewrite Hb; reflexivity).
  split; [exact Ht |]. intros Hweb (u & Hu & Hs). rewrite Ht.
  destruct (getSupportedMimeType_cases P) as [Hin [Hnone | [Hsup _]]].
  - rewrite (Hnone u Hu) in Hs. discriminate.
  - cbv zeta in Hin, Hsup.
    generalize (Hweb _ Hin). revert Hsup Hin.
    generalize (getSupportedMimeType P). intros t Hsup Hin. revert Hsup.
    pattern t. revert t Hin. apply candidate_cases; cbn; intros Hs' Hf;
      try (rewrite (Hf eq_refl) in Hs'; discriminate); tauto.
Qed.

Lemma download_named_webm_witness :
  stage (run mp4_only 0 initial short_run) = Finished /\
  exists b,
    download_link (render (comp (run mp4_only 0 initial short_run)))
    = Some (b, "gas-safety-video.webm"%string) /\
    type b = getSupportedMimeType mp4_only /\
    ((forall u, In u candidates -> is_webm u = true ->
                isTypeSupported mp4_only u = false) ->
     (exists u, In u candidates /\ isTypeSupported mp4_only u = true) ->
     type b = "video/mp4;codecs=h264"%string \/
     type b = "video/mp4"%string).
Proof.
  split; [reflexivity |].
  apply (download_named_webm mp4_only 0 initial short_run). reflexivity.
Defined.

(** Let the recorder keep to its contract.  Then a click starts a run
    unless the previous run is still in flight: after a run that finished or
    failed the next click runs [start] on the component as it was left;
    while a run is animating or stopping a click does nothing, and after a
    run whose frame threw the button stays disabled whatever further events
    [evs2] follow, so every later click does nothing. *)
Theorem click_guarded (P : Platform) (t0 : Q) (c : Component)
  (evs : list EnvEvent) (P' : Platform) (t1 : Q) (evs' : list EnvEvent) :
  orderly P t0 c evs ->
  let s := drive P t0 c evs in
  click P' t1 evs' (comp s) =
  (if live (stage s) then comp s else comp (drive P' t1 (comp s) evs')) /\
  (stage s = Hung ->
   forall evs2,
     orderly P t0 c (evs ++ evs2) ->
     click P' t1 evs' (comp (drive P t0 c (evs ++ evs2)))
     = comp (drive P t0 c (evs ++ evs2))).
Proof.
  intros Hord s.
  assert (s = run P t0 c evs) as Hs by (apply drive_run, Hord).
  unfold click. split.
  - pose proof (run_shape P t0 c evs) as Hshape. rewrite <- Hs in Hshape.
    pose proof (render_stage P t0 s Hshape) as H.
    cbv zeta in H. destruct H as (-> & _). reflexivity.
  - intros Hst evs2 Hord2. rewrite (drive_run P t0 c _ Hord2).
    pose proof (render_stage P t0 _ (run_shape P t0 c (evs ++ evs2))) as H.
    cbv zeta in H. destruct H as (-> & _).
    rewrite Hs in Hst.
    rewrite run_app, fold_hung by exact Hst. reflexivity.
Qed.

Lemma click_guarded_witness :
  orderly bare 0 initial thrown_run /\
  stage (drive bare 0 initial thrown_run) = Hung /\
  forall evs2,
    orderly bare 0 initial (thrown_run ++ evs2) ->
    click bare 20000 short_run
      (comp (drive bare 0 initial (thrown_run ++ evs2)))
    = comp (drive bare 0 initial (thrown_run ++ evs2)).
Proof.
  assert (orderly bare 0 initial thrown_run) as Hord by reflexivity.
  split; [exact Hord |]. split; [reflexivity |].
  apply (click_guarded bare 0 initial thrown_run bare 20000 short_run Hord).
  reflexivity.
Defined.

(** ** How a run ends *)

Lemma count_frames (P : Platform) (t0 : Q) (f : Action -> bool)
  (nows : list Q) :
  (forall now calls, f (act_frame now calls) = false) ->
  List.length (filter f (map (frameAct P t0) nows)) = 0%nat.
Proof.
  intros Hf. rewrite (filter_frames P t0 f nows Hf). reflexivity.
Qed.

(** Let the recorder keep to its contract.  Then [rec.start()] and
    [rec.stop()] are each called at most once in a run and at most one
    object URL is created: [stop()] has been called exactly when the
    animation is over, and the one URL exists exactly when the run
    finished. *)
Theorem one_artifact_per_run (P : Platform) (t0 : Q) (c : Component)
  (evs : list EnvEvent) :
  orderly P t0 c evs ->
  let s := drive P t0 c evs in
  (List.length (filter is_start (trace s)) <= 1)%nat /\
  List.length (filter is_stop (trace s)) =
  match stage s with Stopping | Finished => 1%nat | _ => 0%nat end /\
  List.length (filter is_createObjectURL (trace s)) =
  match stage s with Finished => 1%nat | _ => 0%nat end.
Proof.
  intros Hord s.
  assert (s = run P t0 c evs) as Hs by (apply drive_run, Hord).
  pose proof (run_shape P t0 c evs) as [_ H]. rewrite <- Hs in H.
  destruct (stage s).
  - destruct H as (_ & _ & nows & -> & _).
    rewrite !filter_app, !length_app, !count_frames by reflexivity.
    cbn. repeat split; lia.
  - destruct H as (_ & _ & nows & now & e & -> & _).
    rewrite !filter_app, !length_app, !count_frames by reflexivity.
    cbn. repeat split; lia.
  - destruct H as (_ & _ & nows & last & -> & _).
    rewrite !filter_app, !length_app, !count_frames by reflexivity.
    cbn. repeat split; lia.
  - destruct H as (nows & last & b & -> & _).
    rewrite !filter_app, !length_app, !count_frames by reflexivity.
    cbn. repeat split; lia.
  - destruct H as (_ & _ & _ & [-> | ->]); cbn; repeat split; lia.
Qed.

Lemma one_artifact_per_run_witness :
  orderly bare 0 initial chunked_run /\
  stage (drive bare 0 initial chunked_run) = Finished /\
  List.length
    (filter is_createObjectURL (trace (drive bare 0 initial chunked_run)))
  = 1%nat.
Proof.
  assert (orderly bare 0 initial chunked_run) as Hord by reflexivity.
  split; [exact Hord |]. split; [reflexivity |].
  pose proof (one_artifact_per_run bare 0 initial chunked_run Hord) as H.
  cbv zeta in H. destruct H as (_ & _ & H). exact H.
Defined.

Lemma start_animating (P : Platform) (t0 : Q) (c : Component) :
  MediaRecorder_new P (getSupportedMimeType P) = None ->
  MediaRecorder_start P = None ->
  stage (start P t0 c) = Animating /\ clock (start P t0 c) = t0.
Proof.
  intros Hn Hs. unfold start. rewrite Hn, Hs. split; reflexivity.
Qed.

Lemma step_quiet (P : Platform) (t0 : Q) (s : RunState) (ev : EnvEvent) :
  stage s = Animating -> clock s = t0 -> quiet t0 ev ->
  stage (step P s ev) = Animating /\ clock (step P s ev) = t0.
Proof.
  intros Hst Hc Hq. unfold step. rewrite Hst.
  destruct ev as [now [e |] | data |]; cbn in Hq; try contradiction.
  - rewrite Hc. unfold frame.
    assert ((now <? t0 + DURATION_MS) = true) as -> by (apply Qltb_lt, Hq).
    cbn. split; [reflexivity | exact Hc].
  - cbn. split; assumption.
Qed.

Lemma fold_quiet (P : Platform) (t0 : Q) (evs : list EnvEvent)
  (s : RunState) :
  stage s = Animating -> clock s = t0 -> Forall (quiet t0) evs ->
  stage (fold_left (step P) evs s) = Animating /\
  clock (fold_left (step P) evs s) = t0.
Proof.
  revert s. induction evs as [| ev evs IH]; intros s Hst Hc Hq.
  - split; assumption.
  - apply Forall_cons_iff in Hq. destruct Hq as [Hev Hrest].
    cbn [fold_left].
    destruct (step_quiet P t0 s ev Hst Hc Hev) as [Hst' Hc'].
    exact (IH _ Hst' Hc' Hrest).
Qed.

Lemma step_data (P : Platform) (s : RunState) (ev : EnvEvent) :
  stage s = Stopping -> is_data ev -> stage (step P s ev) = Stopping.
Proof.
  intros Hst Hd. unfold step. rewrite Hst.
  destruct ev as [now [e |] | data |]; cbn in Hd; try contradiction.
  exact Hst.
Qed.

Lemma fold_data (P : Platform) (evs : list EnvEvent) (s : RunState) :
  stage s = Stopping -> Forall is_data evs ->
  stage (fold_left (step P) evs s) = Stopping.
Proof.
  revert s. induction evs as [| ev evs IH]; intros s Hst Hd; [exact Hst |].
  apply Forall_cons_iff in Hd. destruct Hd as [Hev Hrest]. cbn [fold_left].
  apply IH; [apply step_data; assumption | exact Hrest].
Qed.

(** A run does finish when the browser cooperates: if neither the
    constructor nor [start()] throws, no frame throws, a frame arrives at or
    after the end of the timeline, and the recorder then flushes its data
    and fires [stop], the run ends in state "done" with an artifact that
    holds every non-empty fragment delivered before and after the last
    frame, in order, under the selected type. *)
Theorem run_completes (P : Platform) (t0 : Q) (c : Component)
  (during : list EnvEvent) (last : Q) (flush : list EnvEvent) :
  MediaRecorder_new P (getSupportedMimeType P) = None ->
  MediaRecorder_start P = None ->
  Forall (quiet t0) during ->
  t0 + DURATION_MS <= last ->
  Forall is_data flush ->
  let s := run P t0 c
             (during ++ AnimationFrame last None :: flush ++ [StopEvent]) in
  stage s = Finished /\
  recState (comp s) = Done /\
  artifact s =
  Some (new_Blob (filter nonEmpty (data_of (during ++ flush)))
          (getSupportedMimeType P)).
Proof.
  intros Hn Hs Hq Hlast Hd s.
  destruct (start_animating P t0 c Hn Hs) as [Hst0 Hc0].
  assert (stage (run P t0 c during) = Animating /\
          clock (run P t0 c during) = t0) as [Hst1 Hc1]
    by (apply fold_quiet; assumption).
  assert (stage (run P t0 c (during ++ [AnimationFrame last None]))
          = Stopping) as Hst2.
  { rewrite run_snoc. unfold step. rewrite Hst1, Hc1. unfold frame.
    assert ((last <? t0 + DURATION_MS) = false) as ->
      by (apply Qltb_ge, Hlast).
    reflexivity. }
  assert (stage (run P t0 c
                   ((during ++ [AnimationFrame last None]) ++ flush))
          = Stopping) as Hst3
    by (rewrite run_app; apply fold_data; assumption).
  assert (s = step P (run P t0 c
                        ((during ++ [AnimationFrame last None]) ++ flush))
                 StopEvent) as Hs'.
  { subst s. rewrite <- run_snoc. f_equal.
    rewrite <- !app_assoc. reflexivity. }
  destruct (stop_event P t0 _ (run_shape P t0 c _) Hst3) as [Hfin Hart].
  rewrite run_chunks in Hart by (rewrite Hst3; reflexivity).
  rewrite !data_of_app in Hart. cbn [data_of flat_map app] in Hart.
  rewrite app_nil_r in Hart. fold (data_of flush) in Hart.
  rewrite <- data_of_app in Hart.
  rewrite Hs'. split; [exact Hfin |]. split; [| exact Hart].
  pose proof (run_shape P t0 c
                (((during ++ [AnimationFrame last None]) ++ flush)
                 ++ [StopEvent])) as [_ Hsh].
  rewrite run_snoc in Hsh. rewrite Hfin in Hsh.
  destruct Hsh as (? & ? & ? & _ & _ & _ & Hdone & _). exact Hdone.
Qed.

Lemma run_completes_witness :
  (MediaRecorder_new bare (getSupportedMimeType bare) = None /\
   MediaRecorder_start bare = None /\
   0 + DURATION_MS <= 15016) /\
  stage (run bare 0 initial
           ([DataAvailable (sample_blob 2); AnimationFrame 16 None]
            ++ AnimationFrame 15016 None
            :: [DataAvailable (sample_blob 3)] ++ [StopEvent])) = Finished /\
  artifact (run bare 0 initial
              ([DataAvailable (sample_blob 2); AnimationFrame 16 None]
               ++ AnimationFrame 15016 None
               :: [DataAvailable (sample_blob 3)] ++ [StopEvent]))
  = Some (new_Blob
            (filter nonEmpty
               (data_of ([DataAvailable (sample_blob 2);
                          AnimationFrame 16 None]
                         ++ [DataAvailable (sample_blob 3)])))
            (getSupportedMimeType bare)).
Proof.
  split; [repeat split; discriminate |].
  assert (Forall (quiet 0)
            [DataAvailable (sample_blob 2); AnimationFrame 16 None]) as Hq
    by (repeat constructor).
  assert (Forall is_data [DataAvailable (sample_blob 3)]) as Hd
    by (repeat constructor).
  pose proof (run_completes bare 0 initial _ 15016 _ eq_refl eq_refl Hq
                ltac:(discriminate) Hd) as H.
  cbv zeta in H. destruct H as (H1 & _ & H3). split; assumption.
Defined.

(** ** What a frame leaves behind on the context *)

(** Every frame leaves the context's saved state as it found it: over the
    whole frame, helpers included, every [restore] undoes a [save] of the
    same frame, none is left open, and the transform, the alpha, the shadow,
    the stroke style, the line width and the line cap are only ever changed
    between a [save] and its [restore].  (The fill style and the text
    settings are assigned outside and stay as the frame last set them.) *)
Theorem frame_restores_context (P : Platform) (measure : string -> Q)
  (cv : Canvas) (start now : Q) (d : nat) :
  scopedDepth d (frameOps P measure cv start now) = Some d.
Proof.
  unfold frameOps, frame. cbn [fst].
  destruct (phaseOf (now - start)) as [[] |]; reflexivity.
Qed.

(** ** Paths *)

(** In every frame, helpers included, each path is begun with [beginPath]
    before a segment is added to it and no segment is added to a path that
    was already filled or stroked, so no shape is painted twice by a later
    [fill] or [stroke]; nothing is painted before a path is begun, and the
    last path of the frame is painted.  This holds whatever path the
    previous frame left behind. *)
Theorem frame_paths_begun (P : Platform) (measure : string -> Q)
  (cv : Canvas) (start now : Q) (st : PathState) :
  pathAfter st (frameOps P measure cv start now) = Some Painted.
Proof.
  unfold frameOps, frame. cbn [fst].
  destruct (phaseOf (now - start)) as [[] |]; reflexivity.
Qed.

Example scopedDepth_rejects :
  scopedDepth 0 [op_save; op_restore; op_restore] = None /\
  scopedDepth 0 [op_scale 2 2] = None /\
  scopedDepth 0 [op_save; op_scale 2 2] = Some 1%nat /\
  pathAfter NoPath [op_moveTo 0 0] = None /\
  pathAfter NoPath [op_beginPath; op_moveTo 0 0; op_fill; op_lineTo 1 1]
  = None /\
  pathAfter Painted [op_beginPath; op_moveTo 0 0] = Some Building.
Proof. repeat split; reflexivity. Qed.

(** ** Icons stay in their boxes *)

Ltac in_box :=
  unfold pathInBox; cbn [flat_map corners app];
  repeat (apply Forall_cons || apply Forall_nil);
  unfold inBox; cbn [fst snd]; unfold num; cbn [Z.of_nat Pos.of_succ_nat
    Pos.succ]; unfold inject_Z, Qdiv; repeat split;
  try (setoid_replace (/ 2) with 0.5 by reflexivity); lra.

Lemma icon_in_box (i : Icon) (x y w h : Q) (pal : Palette) :
  minWidth i <= w -> minHeight i <= h -> 0 <= w -> 0 <= h ->
  pathInBox x y w h (drawIcon i x y w h pal).
Proof.
  intros Hw Hh Hw0 Hh0.
  destruct i; cbn [minWidth minHeight] in Hw, Hh;
    cbn [drawIcon makeHouseIcon makeStoveIcon makeDeviceIcon makeShieldIcon
         makeWhatsAppIcon roundRectPath seq flat_map app].
  - in_box.
  - in_box.
  - in_box.
  - in_box.
  - (* the bubble is the circle inscribed at the centre of the box *)
    unfold makeWhatsAppIcon, Math_min.
    pose proof (Q.le_min_l w h) as Hl. pose proof (Q.le_min_r w h) as Hr.
    assert (0 <= Qmin w h) as H0 by (apply Q.min_glb; assumption).
    set (m := Qmin w h) in *. in_box.
Qed.

(** Every icon builds its path inside the box it is given, provided the box
    is at least as large as the icon's fixed-size parts need: any box for
    the house, the shield and the bubble; 80 by 60 for the stove, whose
    knobs have radius 16; 28 by 120 for the device, whose lamp has radius 14
    and whose four grill lines are 26 apart whatever the height.  Every
    icon [frame] draws is given a box large enough. *)
Theorem icons_stay_in_box (P : Platform) (cv : Canvas) (start now : Q) :
  (forall i x y w h pal,
     minWidth i <= w -> minHeight i <= h -> 0 <= w -> 0 <= h ->
     pathInBox x y w h (drawIcon i x y w h pal)) /\
  (forall i x y w h pal,
     In (call_icon i x y w h pal) (fst (frame P cv start now)) ->
     pathInBox x y w h (drawIcon i x y w h pal)) /\
  (forall i x y label pal,
     In (call_ctaButton i x y label pal) (fst (frame P cv start now)) ->
     pathInBox (x - 380) (y - 70) 760 140 (ctaButton i x y label pal)).
Proof.
  split; [exact icon_in_box |].
  unfold frame. cbn [fst].
  split.
  - intros i x y w h pal Hin.
    destruct (phaseOf (now - start)) as [[] |];
      cbn [drawPhase drawBackground app In] in Hin;
      repeat (destruct Hin as [Hin | Hin];
              [try discriminate Hin;
               injection Hin as <- <- <- <- <- <-;
               apply icon_in_box; cbn; discriminate |]);
      try contradiction.
  - intros i x y label pal Hin.
    destruct (phaseOf (now - start)) as [[] |];
      cbn [drawPhase drawBackground app In] in Hin;
      repeat (destruct Hin as [Hin | Hin];
              [try discriminate Hin |]);
      try contradiction.
    injection Hin as <- <- <- <- <-.
    cbn [ctaButton drawIcon roundRectPath app].
    unfold makeWhatsAppIcon, Math_min. change (Qmin 96 96) with 96.
    in_box.
Qed.

Lemma icons_stay_in_box_witness :
  (minWidth device <= 260 /\ minHeight device <= 260 /\ 0 <= 260) /\
  pathInBox (-130) (-130) 260 260
    (drawIcon device (-130) (-130) 260 260 palette) /\
  In (call_icon stove (-220) (-220) 440 440 palette)
     (fst (frame bare canvas 0 5000)) /\
  pathInBox (-220) (-220) 440 440
    (drawIcon stove (-220) (-220) 440 440 palette).
Proof.
  pose proof (icons_stay_in_box bare canvas 0 5000) as (Hbox & Hframe & _).
  assert (In (call_icon stove (-220) (-220) 440 440 palette)
             (fst (frame bare canvas 0 5000))) as Hin
    by (cbn; tauto).
  split; [repeat split; discriminate |].
  split; [apply Hbox; discriminate |].
  split; [exact Hin | exact (Hframe _ _ _ _ _ _ Hin)].
Defined.

(** ** Phases follow one another *)

(** As time advances the animation never returns to an earlier phase: of
    two elapsed times, the later one selects the same phase or one further
    along Intro, Install, Prevent, CTA, nothing; equal elapsed times select
    the same phase, and a negative elapsed time selects Intro. *)
Theorem phases_in_order (ms1 ms2 : Q) :
  (ms1 <= ms2 -> (rank (phaseOf ms1) <= rank (phaseOf ms2))%nat) /\
  (ms1 == ms2 -> phaseOf ms1 = phaseOf ms2) /\
  (ms1 < 0 -> phaseOf ms1 = Some Intro).
Proof.
  unfold phaseOf. split; [| split]; intros H; case_tests;
    cbn [rank]; try reflexivity; try lia; lra.
Qed.

Lemma phases_in_order_witness :
  7999 <= 8000 /\ (rank (phaseOf 7999) <= rank (phaseOf 8000))%nat /\
  phaseOf (-5) = Some Intro.
Proof.
  split; [discriminate |]. split.
  - apply (phases_in_order 7999 8000). discriminate.
  - apply (phases_in_order (-5) 0). reflexivity.
Defined.
